(** * A shallow embedding of the claudima bot: moderation pipeline,
    message formatting, dispatch engine and tool surface.

    Strings are Rust [String]/[&str] values: UTF-8 byte sequences, modelled
    as [string] (a list of [ascii], one ascii per byte).  [String::len] is
    therefore the byte length [String.length]. *)

From Stdlib Require Import ZArith Ascii String List Bool Lia Sorting.Sorted.
From stdpp Require Import base gmap strings list.
Import ListNotations.

Local Open Scope Z_scope.

(* ------------------------------------------------------------------ *)
(** ** Byte-string helpers (std::str) *)

Module Str.

Definition dq : ascii := "034"%char.

(** [s.starts_with(p)] *)
Fixpoint starts_with (p s : string) : bool :=
  match p, s with
  | EmptyString, _ => true
  | String c p', String d s' => Ascii.eqb c d && starts_with p' s'
  | String _ _, EmptyString => false
  end.

(** [s.contains(p)] *)
Fixpoint contains (p s : string) : bool :=
  starts_with p s ||
  match s with
  | EmptyString => false
  | String _ s' => contains p s'
  end.

(** [s.contains(c)] for a single char *)
Fixpoint contains_char (c : ascii) (s : string) : bool :=
  match s with
  | EmptyString => false
  | String d s' => Ascii.eqb c d || contains_char c s'
  end.

(** Number of UTF-8 characters: the bytes that are not continuation
    bytes (0x80..0xBF), i.e. [s.chars().count()] on valid UTF-8. *)
Fixpoint chars_count (s : string) : nat :=
  match s with
  | EmptyString => 0
  | String c s' =>
      let n := nat_of_ascii c in
      if (128 <=? n)%nat && (n <? 192)%nat then chars_count s' else S (chars_count s')
  end.

(** Rust's [Display] for a signed integer: optional '-', then decimal
    digits without leading zeros. *)
Fixpoint digits_aux (fuel : nat) (n : N) (acc : string) : string :=
  match fuel with
  | O => acc
  | S f =>
      let d := ascii_of_N (48 + N.modulo n 10) in
      let q := N.div n 10 in
      if (q =? 0)%N then String d acc else digits_aux f q (String d acc)
  end.

Definition n_to_string (n : N) : string := digits_aux (S (N.to_nat (N.size n))) n EmptyString.

Definition z_to_string (z : Z) : string :=
  if z <? 0 then String "-" (n_to_string (Z.to_N (- z))) else n_to_string (Z.to_N z).

End Str.

Notation "s1 +:+ s2" := (String.append s1 s2) (at level 60, right associativity).
#[global] Arguments String.append : simpl nomatch.

(* ------------------------------------------------------------------ *)
(** ** src/chatbot/message.rs *)

Module Message.
Import Str.

Record ReplyTo := {
  reply_message_id : Z;
  reply_username : string;
  reply_text : string;
}.

(** [ChatMessage]; the image payload is not used by [format]. *)
Record ChatMessage := {
  message_id : Z;
  chat_id : Z;
  user_id : Z;
  username : string;
  timestamp : string;
  text : string;
  reply_to : option ReplyTo;
  has_image : bool;
}.

Definition MAX_QUOTE_LENGTH : nat := 200.

(** [xml_escape] *)
Fixpoint xml_escape (s : string) : string :=
  match s with
  | EmptyString => EmptyString
  | String c s' =>
      (if Ascii.eqb c "<" then "&lt;"
       else if Ascii.eqb c ">" then "&gt;"
       else if Ascii.eqb c "&" then "&amp;"
       else String c EmptyString) +:+ xml_escape s'
  end.

(** [xml_escape_attr] *)
Fixpoint xml_escape_attr (s : string) : string :=
  match s with
  | EmptyString => EmptyString
  | String c s' =>
      (if Ascii.eqb c "<" then "&lt;"
       else if Ascii.eqb c ">" then "&gt;"
       else if Ascii.eqb c "&" then "&amp;"
       else if Ascii.eqb c dq then "&quot;"
       else String c EmptyString) +:+ xml_escape_attr s'
  end.

(** [str::is_char_boundary]: index 0, the end, or a byte that is not a
    UTF-8 continuation byte. *)
Definition is_char_boundary (s : string) (i : nat) : bool :=
  match i with
  | O => true
  | _ =>
      if (i =? String.length s)%nat then true
      else if (String.length s <? i)%nat then false
      else match String.get i s with
           | Some c => negb ((128 <=? nat_of_ascii c)%nat && (nat_of_ascii c <? 192)%nat)
           | None => false
           end
  end.

(** the [while end > 0 && !s.is_char_boundary(end) { end -= 1 }] loop *)
Fixpoint back_to_boundary (s : string) (fuel end_ : nat) : nat :=
  match fuel with
  | O => end_
  | S f =>
      if (0 <? end_)%nat && negb (is_char_boundary s end_)
      then back_to_boundary s f (end_ - 1) else end_
  end.

(** [truncate_safe] *)
Definition truncate_safe (s : string) (max_chars : nat) : string :=
  if (String.length s <=? max_chars)%nat then s
  else String.substring 0 (back_to_boundary s max_chars max_chars) s.

Definition q : string := String dq EmptyString.

(** [ChatMessage::format] *)
Definition format (m : ChatMessage) : string :=
  let reply_part :=
    match m.(reply_to) with
    | Some r =>
        let truncated :=
          if (MAX_QUOTE_LENGTH <? String.length r.(reply_text))%nat
          then truncate_safe r.(reply_text) MAX_QUOTE_LENGTH +:+ "..."
          else r.(reply_text) in
        "<reply id=" +:+ q +:+ z_to_string r.(reply_message_id) +:+ q +:+
        " from=" +:+ q +:+ xml_escape_attr r.(reply_username) +:+ q +:+ ">" +:+
        xml_escape truncated +:+ "</reply>"
    | None => EmptyString
    end in
  "<msg id=" +:+ q +:+ z_to_string m.(message_id) +:+ q +:+
  " chat=" +:+ q +:+ z_to_string m.(chat_id) +:+ q +:+
  " user=" +:+ q +:+ z_to_string m.(user_id) +:+ q +:+
  " name=" +:+ q +:+ xml_escape_attr m.(username) +:+ q +:+
  " time=" +:+ q +:+ xml_escape_attr m.(timestamp) +:+ q +:+ ">" +:+
  reply_part +:+ xml_escape m.(text) +:+ "</msg>".

(** *** A recogniser for the formatter's output language.

    [entity_safe v]: [v] has no raw '<' or '>', and every '&' in it starts
    one of the entity references [&lt;], [&gt;], [&amp;], [&quot;].
    [attr_safe v]: additionally no raw double quote. *)
Fixpoint entity_safe (s : string) : bool :=
  match s with
  | EmptyString => true
  | String c s' =>
      if Ascii.eqb c "<" || Ascii.eqb c ">" then false
      else if Ascii.eqb c "&" then
        (starts_with "lt;" s' || starts_with "gt;" s' ||
         starts_with "amp;" s' || starts_with ("quot;") s') && entity_safe s'
      else entity_safe s'
  end.

Definition attr_safe (s : string) : bool := entity_safe s && negb (contains_char dq s).

(** strip a literal prefix *)
Fixpoint expect (p s : string) : option string :=
  match p, s with
  | EmptyString, _ => Some s
  | String c p', String d s' => if Ascii.eqb c d then expect p' s' else None
  | String _ _, EmptyString => None
  end.

(** split at the first occurrence of [c]; the rest starts with [c] *)
Fixpoint take_until (c : ascii) (s : string) : option (string * string) :=
  match s with
  | EmptyString => None
  | String d s' =>
      if Ascii.eqb c d then Some (EmptyString, s)
      else match take_until c s' with
           | Some (a, r) => Some (String d a, r)
           | None => None
           end
  end.

(** one attribute [ name=(quoted value)] whose value is attribute-safe *)
Definition parse_attr (name : string) (s : string) : option string :=
  match expect (" " +:+ name +:+ "=" +:+ q) s with
  | None => None
  | Some r =>
      match take_until dq r with
      | Some (v, r') => if attr_safe v then expect q r' else None
      | None => None
      end
  end.

Fixpoint parse_attrs (names : list string) (s : string) : option string :=
  match names with
  | [] => Some s
  | n :: ns => match parse_attr n s with Some r => parse_attrs ns r | None => None end
  end.

(** an opening tag [<tag a1=(quoted) ...>] *)
Definition parse_open (tag : string) (names : list string) (s : string) : option string :=
  match expect ("<" +:+ tag) s with
  | None => None
  | Some r => match parse_attrs names r with Some r' => expect ">" r' | None => None end
  end.

(** character data up to the next raw '<', which must be entity-safe *)
Definition parse_text (s : string) : option string :=
  match take_until "<" s with
  | Some (v, r) => if entity_safe v then Some r else None
  | None => None
  end.

(** [<msg ...>] optionally [<reply ...>text</reply>], text, [</msg>] *)
Definition well_delimited (s : string) : bool :=
  match parse_open "msg" ["id"; "chat"; "user"; "name"; "time"] s with
  | None => false
  | Some r1 =>
      let r2 :=
        if starts_with "<reply" r1 then
          match parse_open "reply" ["id"; "from"] r1 with
          | Some r => match parse_text r with Some r' => expect "</reply>" r' | None => None end
          | None => None
          end
        else Some r1 in
      match r2 with
      | None => false
      | Some r2 =>
          match parse_text r2 with
          | Some r3 => match expect "</msg>" r3 with Some EmptyString => true | _ => false end
          | None => false
          end
      end
  end.

End Message.

(* ------------------------------------------------------------------ *)
(** ** Shared types *)

(** Rust's [Result<T, E>] *)
Inductive result (A E : Type) : Type :=
| Ok (a : A)
| Err (e : E).
Arguments Ok {A E} a.
Arguments Err {A E} e.

Module Str2.
Import Str.

(** ASCII part of [char::is_whitespace] (tab, LF, VT, FF, CR, space);
    non-ASCII whitespace is not modelled. *)
Definition is_whitespace (c : ascii) : bool :=
  let n := nat_of_ascii c in ((9 <=? n)%nat && (n <=? 13)%nat) || (n =? 32)%nat.

Fixpoint trim_start (s : string) : string :=
  match s with
  | EmptyString => EmptyString
  | String c s' => if is_whitespace c then trim_start s' else s
  end.

Definition rev_string (s : string) : string :=
  string_of_list_ascii (rev (list_ascii_of_string s)).

(** [str::trim] *)
Definition trim (s : string) : string := rev_string (trim_start (rev_string (trim_start s))).

(** [str::to_uppercase] on ASCII letters; other bytes are unchanged. *)
Definition ascii_upper (c : ascii) : ascii :=
  let n := nat_of_ascii c in
  if (97 <=? n)%nat && (n <=? 122)%nat then ascii_of_nat (n - 32) else c.

Fixpoint to_uppercase (s : string) : string :=
  match s with
  | EmptyString => EmptyString
  | String c s' => String (ascii_upper c) (to_uppercase s')
  end.

End Str2.

(* ------------------------------------------------------------------ *)
(** ** src/config.rs and src/prefilter.rs *)

Module Prefilter.
Import Str.

(** The part of [Config] the moderation path reads.  A compiled [Regex] is
    represented by its [is_match] predicate. *)
Record Config := {
  owner_ids : list Z;
  trusted_dm_users : list Z;
  allowed_groups : list Z;
  trusted_channels : list Z;
  spam_patterns : list (string -> bool);
  safe_patterns : list (string -> bool);
  max_strikes : Z;
  dry_run : bool;
}.

Definition is_owner (cfg : Config) (uid : Z) : bool := existsb (Z.eqb uid) cfg.(owner_ids).
Definition can_dm (cfg : Config) (uid : Z) : bool :=
  is_owner cfg uid || existsb (Z.eqb uid) cfg.(trusted_dm_users).
Definition is_trusted_channel (cfg : Config) (cid : Z) : bool :=
  existsb (Z.eqb cid) cfg.(trusted_channels).

Inductive PrefilterResult := ObviousSpam | ObviousSafe | Ambiguous.

Definition MAGIC : string := "ANTHROPIC_MAGIC_STRING_".

(** [prefilter]: the two [for] loops with early returns are [existsb]. *)
Definition prefilter (text : string) (cfg : Config) : PrefilterResult :=
  if contains MAGIC text then ObviousSpam
  else if existsb (fun p => p text) cfg.(spam_patterns) then ObviousSpam
  else if existsb (fun p => p text) cfg.(safe_patterns) then ObviousSafe
  else if (String.length text <? 30)%nat then ObviousSafe
  else Ambiguous.

End Prefilter.

(* ------------------------------------------------------------------ *)
(** ** src/classifier.rs *)

Module Classifier.
Import Str Str2.

Inductive Classification := Spam | NotSpam.

(** [classify]: the Haiku call's outcome is the input; its error is
    propagated by [?], its answer is parsed. *)
Definition classify (client_reply : result string string) : result Classification string :=
  match client_reply with
  | Err e => Err e
  | Ok response =>
      let r := to_uppercase (trim response) in
      if contains "SPAM" r && negb (contains "NOT" r) then Ok Spam else Ok NotSpam
  end.

End Classifier.

(* ------------------------------------------------------------------ *)
(** ** src/chatbot/context.rs, the messages/users tables of
    src/chatbot/database.rs, and the intake of src/chatbot/engine.rs *)

Module Engine.
Import Message.

(** [ContextBuffer]: the message vector and the id -> position index. *)
Record ContextBuffer := {
  cb_messages : list ChatMessage;
  cb_index : gmap Z nat;
}.

Definition cb_add_message (cb : ContextBuffer) (m : ChatMessage) : ContextBuffer :=
  {| cb_messages := cb.(cb_messages) ++ [m];
     cb_index := <[m.(message_id) := length cb.(cb_messages)]> cb.(cb_index) |}.

Definition cb_get_message (cb : ContextBuffer) (id : Z) : option ChatMessage :=
  match cb.(cb_index) !! id with
  | Some i => cb.(cb_messages) !! i
  | None => None
  end.

Record UserRow := {
  ur_username : string;
  ur_first_name : string;
  ur_join_date : string;
  ur_last_message_date : string;
  ur_message_count : Z;
  ur_status : string;
}.

(** The archive: [messages] keyed by its primary key [message_id],
    [users] keyed by [user_id]. *)
Record Archive := {
  messages_tbl : gmap Z ChatMessage;
  users_tbl : gmap Z UserRow;
}.

(** [Database::add_message]: the users upsert, then
    [INSERT OR REPLACE INTO messages]. *)
Definition db_add_message (db : Archive) (m : ChatMessage) : Archive :=
  let row :=
    match db.(users_tbl) !! m.(user_id) with
    | None => {| ur_username := m.(username); ur_first_name := m.(username);
                 ur_join_date := m.(timestamp); ur_last_message_date := m.(timestamp);
                 ur_message_count := 1; ur_status := "member" |}
    | Some r => {| ur_username := m.(username); ur_first_name := r.(ur_first_name);
                   ur_join_date := r.(ur_join_date); ur_last_message_date := m.(timestamp);
                   ur_message_count := r.(ur_message_count) + 1; ur_status := r.(ur_status) |}
    end in
  {| users_tbl := <[m.(user_id) := row]> db.(users_tbl);
     messages_tbl := <[m.(message_id) := m]> db.(messages_tbl) |}.

Record EngineState := {
  context : ContextBuffer;
  database : Archive;
  pending : list ChatMessage;     (** the Pending Batch *)
  debouncer_started : bool;
  debounce_triggers : nat;
}.

(** [ChatbotEngine::handle_message] *)
Definition handle_message (msg : ChatMessage) (e : EngineState) : EngineState :=
  {| context := cb_add_message e.(context) msg;
     database := db_add_message e.(database) msg;
     pending := e.(pending) ++ [msg];
     debouncer_started := e.(debouncer_started);
     debounce_triggers :=
       if e.(debouncer_started) then S e.(debounce_triggers) else e.(debounce_triggers) |}.

End Engine.

(* ------------------------------------------------------------------ *)
(** ** src/main.rs: the update handler for new messages *)

Module Main.
Import Message Prefilter Classifier Engine.

Record User := {
  u_id : Z;
  u_username : option string;
  u_first_name : string;
}.

Inductive ChatKind := Private | Public.

Record TgReply := {
  r_id : Z;
  r_from : option User;
  r_text : option string;
}.

(** The parts of a teloxide [Message] the handler reads; [date] is the
    already formatted ["%Y-%m-%d %H:%M"] timestamp. *)
Record TgMessage := {
  msg_id : Z;
  chat : Z;
  kind : ChatKind;
  from : option User;
  sender_chat : option Z;
  msg_text : option string;
  caption : option string;
  photo : bool;
  voice : bool;
  docx_document : bool;
  date : string;
  reply_to_message : option TgReply;
}.

(** Calls made on the Telegram transport. *)
Inductive TgCall :=
| TgDelete (chat_id msg_id : Z)
| TgBan (chat_id user_id : Z)
| TgSend (chat_id : Z) (text : string).

Record BotState := {
  strikes : gmap Z Z;
  dm_denied : list Z;
  chatbot : option EngineState;
  tg_calls : list TgCall;
}.

(** Outcomes of the awaited external calls: the Haiku client's reply and
    whether the image download succeeded. *)
Record External := {
  haiku_reply : result string string;
  image_download_ok : bool;
}.

Definition display_name (u : User) : string :=
  match u.(u_username) with Some n => n | None => u.(u_first_name) end.

Definition unwrap_or {A} (o : option A) (d : A) : A :=
  match o with Some x => x | None => d end.

(** [msg.text().or_else(|| msg.caption())] *)
Definition text_of (m : TgMessage) : option string :=
  match m.(msg_text) with Some t => Some t | None => m.(caption) end.

(** [telegram_to_chat_message_with_media] (the image as a flag) *)
Definition telegram_to_chat_message (m : TgMessage) (image : bool) : ChatMessage :=
  {| message_id := m.(msg_id);
     chat_id := m.(chat);
     user_id := match m.(from) with Some u => u.(u_id) | None => 0 end;
     username := match m.(from) with Some u => display_name u | None => "unknown" end;
     timestamp := m.(date);
     text := unwrap_or (text_of m) "";
     reply_to :=
       match m.(reply_to_message) with
       | Some r => Some {| reply_message_id := r.(r_id);
                           reply_username :=
                             match r.(r_from) with Some u => display_name u | None => "unknown" end;
                           reply_text := unwrap_or r.(r_text) "" |}
       | None => None
       end;
     has_image := image |}.

(** [state.add_strike]: a [u8] counter, [*count += 1] (wrapping) *)
Definition add_strike (st : BotState) (uid : Z) : BotState * Z :=
  let c := (unwrap_or (st.(strikes) !! uid) 0 + 1) mod 256 in
  ({| strikes := <[uid := c]> st.(strikes); dm_denied := st.(dm_denied);
      chatbot := st.(chatbot); tg_calls := st.(tg_calls) |}, c).

Definition push_call (st : BotState) (c : TgCall) : BotState :=
  {| strikes := st.(strikes); dm_denied := st.(dm_denied);
     chatbot := st.(chatbot); tg_calls := st.(tg_calls) ++ [c] |}.

Definition with_engine (st : BotState) (e : EngineState) : BotState :=
  {| strikes := st.(strikes); dm_denied := st.(dm_denied);
     chatbot := Some e; tg_calls := st.(tg_calls) |}.

(** owners and trusted channels bypass the spam filter *)
Definition bypass_filter (cfg : Config) (m : TgMessage) (u : User) : bool :=
  is_owner cfg u.(u_id) ||
  match m.(sender_chat) with Some c => is_trusted_channel cfg c | None => false end.

(** the [let is_spam = ...] block of [handle_new_message] *)
Definition is_spam (cfg : Config) (ext : External) (m : TgMessage) (u : User) : bool :=
  match text_of m with
  | Some t =>
      if bypass_filter cfg m u then false
      else
        match prefilter t cfg with
        | ObviousSpam => true
        | ObviousSafe => false
        | Ambiguous =>
            match classify ext.(haiku_reply) with
            | Ok Spam => true
            | Ok NotSpam => false
            | Err _ => false
            end
        end
  | None => false
  end.

(** the allowed-group check ([allowed_groups] empty means every group) *)
Definition group_allowed (cfg : Config) (m : TgMessage) : bool :=
  bool_decide (cfg.(allowed_groups) = []) || existsb (Z.eqb m.(chat)) cfg.(allowed_groups).

(** forward to the engine when it is configured *)
Definition forward (ext : External) (m : TgMessage) (st : BotState) : BotState :=
  match st.(chatbot) with
  | Some e =>
      let image := m.(photo) && ext.(image_download_ok) in
      with_engine st (handle_message (telegram_to_chat_message m image) e)
  | None => st
  end.

(** [handle_new_message] *)
Definition handle_new_message (cfg : Config) (ext : External) (m : TgMessage) (st : BotState)
  : BotState :=
  match m.(from) with
  | None => st
  | Some u =>
      match m.(kind) with
      | Private =>
          if can_dm cfg u.(u_id) then forward ext m st
          else if existsb (Z.eqb u.(u_id)) st.(dm_denied) then st
          else push_call {| strikes := st.(strikes); dm_denied := st.(dm_denied) ++ [u.(u_id)];
                            chatbot := st.(chatbot); tg_calls := st.(tg_calls) |}
                         (TgSend m.(chat) "Access denied.")
      | Public =>
          if negb (group_allowed cfg m) then st
          else if (match text_of m with None => true | Some _ => false end) &&
                  negb m.(photo) && negb m.(voice) && negb m.(docx_document) then st
          else if is_spam cfg ext m u then
            let st1 := if cfg.(dry_run) then st else push_call st (TgDelete m.(chat) m.(msg_id)) in
            let '(st2, n) := add_strike st1 u.(u_id) in
            if cfg.(max_strikes) <=? n then
              (if cfg.(dry_run) then st2 else push_call st2 (TgBan m.(chat) u.(u_id)))
            else st2
          else forward ext m st
      end
  end.

End Main.

(* ------------------------------------------------------------------ *)
(** ** Tools of src/chatbot/engine.rs: send_message and mute_user *)

Module Tools.
Import Str Message Engine.

Record ChatbotConfig := {
  owner : option Z;          (** [config.owner.map(|o| o.id)] *)
  bot_user_id : Z;
  data_dir : option string;
}.

(** Calls on the [TelegramClient]. *)
Inductive ApiCall :=
| ApiSend (chat_id : Z) (text : string) (reply_to : option Z)
| ApiMute (chat_id user_id duration_minutes : Z).

(** The transport's answer to each call (a message id for sends). *)
Definition Transport := ApiCall -> result Z string.

Record ToolState := {
  t_context : ContextBuffer;
  t_database : Archive;
  api_calls : list ApiCall;
}.

Definition call (tg : Transport) (c : ApiCall) (st : ToolState) : result Z string * ToolState :=
  (tg c, {| t_context := st.(t_context); t_database := st.(t_database);
            api_calls := st.(api_calls) ++ [c] |}).

(** [i64::clamp] *)
Definition clamp (x lo hi : Z) : Z := if x <? lo then lo else if hi <? x then hi else x.

(** the icon bytes at the start of the owner notification, as in the source *)
Definition MUTE_ICON : string :=
  String "239" (String "163" (String "191" (String "195" (String "188"
  (String "195" (String "174" (String "195" (String "161" EmptyString)))))))).

(** [execute_mute_user] *)
Definition execute_mute_user (cfg : ChatbotConfig) (tg : Transport) (chat_id user_id : Z)
    (duration_minutes : Z) (st : ToolState) : result (option string) string * ToolState :=
  let duration := clamp duration_minutes 1 1440 in
  let '(r, st1) := call tg (ApiMute chat_id user_id duration) st in
  match r with
  | Err e => (Err e, st1)
  | Ok _ =>
      let st2 :=
        match cfg.(owner) with
        | Some o =>
            snd (call tg (ApiSend o (MUTE_ICON +:+ " Muted user " +:+ z_to_string user_id +:+
                                    " for " +:+ z_to_string duration +:+ " min in chat " +:+
                                    z_to_string chat_id) None) st1)
        | None => st1
        end in
      (Ok None, st2)
  end.

(** the reply-target validation of [execute_send_message] *)
Definition validate_reply (ctx : ContextBuffer) (chat_id : Z) (reply_to_message_id : option Z)
  : option Z :=
  match reply_to_message_id with
  | Some reply_id =>
      match cb_get_message ctx reply_id with
      | Some orig => if orig.(Message.chat_id) =? chat_id then Some reply_id else None
      | None => Some reply_id   (* not in context, let Telegram decide *)
      end
  | None => None
  end.

(** [execute_send_message]; [now_hm] is [Utc::now().format("%H:%M")] *)
Definition execute_send_message (cfg : ChatbotConfig) (tg : Transport) (now_hm : string)
    (chat_id : Z) (text : string) (reply_to_message_id : option Z) (st : ToolState)
  : result (option string) string * ToolState :=
  let validated_reply := validate_reply st.(t_context) chat_id reply_to_message_id in
  let '(r, st1) := call tg (ApiSend chat_id text validated_reply) st in
  match r with
  | Err e => (Err e, st1)
  | Ok msg_id =>
      let reply_to :=
        match validated_reply with
        | Some reply_id =>
            match cb_get_message st1.(t_context) reply_id with
            | Some orig => Some {| reply_message_id := reply_id;
                                   reply_username := orig.(Message.username);
                                   reply_text := orig.(Message.text) |}
            | None => None
            end
        | None => None
        end in
      let bot_msg := {| Message.message_id := msg_id; Message.chat_id := chat_id;
                        Message.user_id := cfg.(bot_user_id); Message.username := "Claudima";
                        Message.timestamp := now_hm; Message.text := text;
                        Message.reply_to := reply_to; Message.has_image := false |} in
      (Ok None, {| t_context := cb_add_message st1.(t_context) bot_msg;
                   t_database := db_add_message st1.(t_database) bot_msg;
                   api_calls := st1.(api_calls) |})
  end.

End Tools.

(* ------------------------------------------------------------------ *)
(** ** [Database::query] (src/chatbot/database.rs) *)

Module Query.
Import Str Str2.

(** A SQLite value as [rusqlite::types::Value]; a real is kept as the
    text of its [to_string]. *)
Inductive Value :=
| VNull
| VInteger (n : Z)
| VReal (shown : string)
| VText (s : string)
| VBlob (len : nat).

Definition Row := list Value.

(** The connection: [prepare] yields the column names, [query] the row
    cursor, each [rows.next()] yielding a row or an error. *)
Record SqlConn := {
  sql_prepare : string -> result (list string) string;
  sql_execute : string -> result (list (result Row string)) string;
}.

(** What the call does to the database. *)
Inductive QueryEvent :=
| QPrepare (sql : string)
| QExecute
| QFetchRow.

Definition is_continuation (c : ascii) : bool :=
  (128 <=? nat_of_ascii c)%nat && (nat_of_ascii c <? 192)%nat.

(** [s.chars().take(n).collect::<String>()] on UTF-8 bytes *)
Fixpoint take_chars (n : nat) (s : string) : string :=
  match s with
  | EmptyString => EmptyString
  | String c s' =>
      if is_continuation c then String c (take_chars n s')
      else match n with O => EmptyString | S k => String c (take_chars k s') end
  end.

Definition format_value (v : Value) : string :=
  match v with
  | VNull => "NULL"
  | VInteger n => z_to_string n
  | VReal f => f
  | VText s => if (100 <? chars_count s)%nat then take_chars 100 s +:+ "..." else s
  | VBlob n => "<blob " +:+ z_to_string (Z.of_nat n) +:+ " bytes>"
  end.

Fixpoint join (sep : string) (l : list string) : string :=
  match l with
  | [] => EmptyString
  | [x] => x
  | x :: l' => x +:+ sep +:+ join sep l'
  end.

(** [columns.iter().enumerate().take(column_count)]: a missing value is "?" *)
Fixpoint format_row (cols : list string) (row : Row) : list string :=
  match cols, row with
  | [], _ => []
  | c :: cs, v :: vs => (c +:+ ": " +:+ format_value v) :: format_row cs vs
  | c :: cs, [] => (c +:+ ": ?") :: format_row cs []
  end.

Definition MAX_ROWS : nat := 100.

(** the [while let Some(row) = rows.next()?] loop *)
Fixpoint fetch_loop (cols : list string) (rows : list (result Row string)) (row_count : nat)
    (results : list string) : result (list string * nat) string * list QueryEvent :=
  match rows with
  | [] => (Ok (results, row_count), [])
  | Err e :: _ => (Err ("Row fetch error: " +:+ e), [QFetchRow])
  | Ok row :: rest =>
      if (MAX_ROWS <=? row_count)%nat then
        (Ok (results ++ ["... (truncated, showing first 100 rows)"], row_count), [QFetchRow])
      else
        let '(r, ev) := fetch_loop cols rest (S row_count)
                          (results ++ [join " | " (format_row cols row)]) in
        (r, QFetchRow :: ev)
  end.

Definition FORBIDDEN : list string :=
  ["INSERT"; "UPDATE"; "DELETE"; "DROP"; "ALTER"; "CREATE"; "ATTACH"; "DETACH"].

(** the [for pattern in [...]] loop with its early return *)
Fixpoint first_forbidden (sql_upper : string) (ps : list string) : option string :=
  match ps with
  | [] => None
  | p :: ps' => if contains p sql_upper then Some p else first_forbidden sql_upper ps'
  end.

(** [Database::query] *)
Definition query (conn : SqlConn) (sql : string) : result string string * list QueryEvent :=
  let sql_trimmed := trim sql in
  if negb (starts_with "SELECT" (to_uppercase sql_trimmed)) then
    (Err "Only SELECT queries are allowed", [])
  else
    let sql_upper := to_uppercase sql_trimmed in
    match first_forbidden sql_upper FORBIDDEN with
    | Some p => (Err ("Query contains forbidden keyword: " +:+ p), [])
    | None =>
        match conn.(sql_prepare) sql_trimmed with
        | Err e => (Err ("Query error: " +:+ e), [QPrepare sql_trimmed])
        | Ok cols =>
            match conn.(sql_execute) sql_trimmed with
            | Err e => (Err ("Query execution error: " +:+ e), [QPrepare sql_trimmed; QExecute])
            | Ok rows =>
                let '(r, ev) := fetch_loop cols rows 0 [] in
                let evs := QPrepare sql_trimmed :: QExecute :: ev in
                match r with
                | Err e => (Err e, evs)
                | Ok (results, row_count) =>
                    if bool_decide (results = []) then (Ok "No results", evs)
                    else (Ok (z_to_string (Z.of_nat row_count) +:+ " row(s):" +:+
                              String "010" (join (String "010" EmptyString) results)), evs)
                end
            end
        end
    end.

End Query.

(* ------------------------------------------------------------------ *)
(** ** Memory tools of src/chatbot/engine.rs over a file-system model *)

Module Memory.
Import Str Query.

(** The file system: directories, regular files with their contents, and
    the resolution [canonicalize] applies to an existing path (symbolic
    links and the like). *)
Record FS := {
  fs_dirs : gset string;
  fs_files : gmap string string;
  fs_resolve : string -> string;
}.

Definition slash : ascii := "/".
Definition backslash : ascii := "092".

(** [Path::join]: an absolute component replaces the base *)
Definition path_join (base rel : string) : string :=
  if starts_with "/" rel then rel else base +:+ "/" +:+ rel.

Fixpoint last_slash_aux (s : string) (i : nat) (acc : option nat) : option nat :=
  match s with
  | EmptyString => acc
  | String c s' => last_slash_aux s' (S i) (if Ascii.eqb c slash then Some i else acc)
  end.

Fixpoint strip_trailing_slashes_rev (l : list ascii) : list ascii :=
  match l with
  | c :: l' => if Ascii.eqb c slash then strip_trailing_slashes_rev l' else l
  | [] => []
  end.

Definition strip_trailing_slashes (s : string) : string :=
  string_of_list_ascii (rev (strip_trailing_slashes_rev (rev (list_ascii_of_string s)))).

(** [Path::parent]: [None] for the empty path and the root; the part
    before the last separator otherwise ([Some ""] for a single relative
    component). *)
Definition parent (p : string) : option string :=
  let p' := strip_trailing_slashes p in
  if String.eqb p' EmptyString then None
  else match last_slash_aux p' 0 None with
       | None => Some EmptyString
       | Some O => Some "/"
       | Some i => Some (String.substring 0 i p')
       end.

Definition path_exists (fs : FS) (p : string) : bool :=
  bool_decide (p ∈ fs.(fs_dirs)) || bool_decide (is_Some (fs.(fs_files) !! p)).

Definition is_dir (fs : FS) (p : string) : bool := bool_decide (p ∈ fs.(fs_dirs)).

Definition with_dirs (fs : FS) (d : gset string) : FS :=
  {| fs_dirs := d; fs_files := fs.(fs_files); fs_resolve := fs.(fs_resolve) |}.

Definition with_files (fs : FS) (f : gmap string string) : FS :=
  {| fs_dirs := fs.(fs_dirs); fs_files := f; fs_resolve := fs.(fs_resolve) |}.

(** [std::fs::create_dir_all]: the directory and all its ancestors *)
Fixpoint ancestors (fuel : nat) (p : string) : list string :=
  match fuel with
  | O => []
  | S f => match parent p with
           | Some q => if String.eqb q EmptyString then [] else q :: ancestors f q
           | None => []
           end
  end.

Definition create_dir_all (fs : FS) (p : string) : FS :=
  with_dirs fs (list_to_set (p :: ancestors (String.length p) p) ∪ fs.(fs_dirs)).

(** [Path::canonicalize] *)
Definition canonicalize (fs : FS) (p : string) : result string string :=
  if path_exists fs p then Ok (fs.(fs_resolve) p) else Err "No such file or directory".

(** [Path::starts_with]: component-wise prefix *)
Definition path_starts_with (a b : string) : bool :=
  String.eqb a b || starts_with (b +:+ "/") a.

(** [std::fs::write] *)
Definition write_file (fs : FS) (p content : string) : result unit string * FS :=
  if is_dir fs p then (Err "Is a directory", fs)
  else match parent p with
       | Some d => if is_dir fs d then (Ok tt, with_files fs (<[p := content]> fs.(fs_files)))
                   else (Err "No such file or directory", fs)
       | None => (Err "No such file or directory", fs)
       end.

(** [std::fs::read_to_string] *)
Definition read_to_string (fs : FS) (p : string) : result string string :=
  match fs.(fs_files) !! p with
  | Some c => Ok c
  | None => if is_dir fs p then Err "Is a directory" else Err "No such file or directory"
  end.

Definition NO_DATA_DIR : string := "No data_dir configured - memories disabled".

(** [resolve_memory_path] *)
Definition resolve_memory_path (data_dir : option string) (relative_path : string) (fs : FS)
  : result string string * FS :=
  match data_dir with
  | None => (Err NO_DATA_DIR, fs)
  | Some dd =>
      let memories_dir := path_join dd "memories" in
      if contains ".." relative_path then (Err "Path cannot contain '..'", fs)
      else if starts_with "/" relative_path || starts_with (String backslash EmptyString) relative_path
      then (Err "Path must be relative", fs)
      else if String.eqb relative_path EmptyString then (Err "Path cannot be empty", fs)
      else
        let full_path := path_join memories_dir relative_path in
        match parent full_path with
        | None => (Err "Invalid path", fs)
        | Some par =>
            let fs1 := if negb (path_exists fs par) then create_dir_all fs par else fs in
            match canonicalize fs1 par with
            | Err e => (Err ("Failed to resolve path: " +:+ e), fs1)
            | Ok canonical_parent =>
                let '(canonical_memories, fs2) :=
                  match canonicalize fs1 memories_dir with
                  | Ok c => (c, fs1)
                  | Err _ =>
                      let fs2 := create_dir_all fs1 memories_dir in
                      (match canonicalize fs2 memories_dir with
                       | Ok c => c | Err _ => memories_dir end, fs2)
                  end in
                if negb (path_starts_with canonical_parent canonical_memories)
                then (Err "Path must be within memories directory", fs2)
                else (Ok full_path, fs2)
            end
        end
  end.

(** [str::lines]: split at LF, no final empty line, a trailing CR dropped *)
Fixpoint lines_aux (s : string) (cur : string) : list string :=
  match s with
  | EmptyString => if String.eqb cur EmptyString then [] else [cur]
  | String c s' =>
      if Ascii.eqb c "010" then cur :: lines_aux s' EmptyString
      else lines_aux s' (cur +:+ String c EmptyString)
  end.

Definition strip_cr (l : string) : string :=
  let n := String.length l in
  match String.get (n - 1) l with
  | Some c => if (0 <? n)%nat && Ascii.eqb c "013" then String.substring 0 (n - 1) l else l
  | None => l
  end.

Definition lines (s : string) : list string := map strip_cr (lines_aux s EmptyString).

Fixpoint pad_left (n : nat) (s : string) : string :=
  match n with
  | O => s
  | S k => if (String.length s <? n)%nat then String " " (pad_left k s) else s
  end.

(** the separator bytes of the source's [{:>5}...{}] format string *)
Definition ARROW : string :=
  String "226" (String "128" (String "154" (String "195" (String "156"
  (String "195" (String "173" EmptyString)))))).

Fixpoint number_lines (i : nat) (ls : list string) : list string :=
  match ls with
  | [] => []
  | l :: ls' => (pad_left 5 (z_to_string (Z.of_nat i)) +:+ ARROW +:+ l) :: number_lines (S i) ls'
  end.

(** [content.matches(p).count()], non-overlapping from the left; the empty
    pattern matches at every char boundary *)
Fixpoint count_matches_aux (fuel : nat) (p s : string) : nat :=
  match fuel with
  | O => 0
  | S f =>
      if starts_with p s then
        S (count_matches_aux f p (String.substring (String.length p) (String.length s) s))
      else match s with EmptyString => 0 | String _ s' => count_matches_aux f p s' end
  end.

Definition count_matches (p s : string) : nat :=
  if String.eqb p EmptyString then S (chars_count s)
  else count_matches_aux (S (String.length s)) p s.

(** [content.replace(p, q)] for a non-empty [p] (the tool only replaces
    after exactly one match, so [p] is non-empty when the content is) *)
Fixpoint replace_aux (fuel : nat) (p q s : string) : string :=
  match fuel with
  | O => s
  | S f =>
      if starts_with p s then
        q +:+ replace_aux f p q (String.substring (String.length p) (String.length s) s)
      else match s with EmptyString => EmptyString | String c s' => String c (replace_aux f p q s') end
  end.

Definition str_replace (p q s : string) : string := replace_aux (S (String.length s)) p q s.

(** [files_read]: paths read in this batch *)
Definition FilesRead := gset string.

(** [execute_create_memory] *)
Definition execute_create_memory (data_dir : option string) (path content : string) (fs : FS)
  : result (option string) string * FS :=
  match resolve_memory_path data_dir path fs with
  | (Err e, fs1) => (Err e, fs1)
  | (Ok full_path, fs1) =>
      if path_exists fs1 full_path then
        (Err ("File already exists: " +:+ path +:+ ". Use edit_memory to modify."), fs1)
      else match write_file fs1 full_path content with
           | (Err e, fs2) => (Err ("Failed to write file: " +:+ e), fs2)
           | (Ok _, fs2) => (Ok None, fs2)
           end
  end.

(** [execute_read_memory] *)
Definition execute_read_memory (data_dir : option string) (path : string) (files_read : FilesRead)
    (fs : FS) : result (option string) string * FilesRead * FS :=
  match resolve_memory_path data_dir path fs with
  | (Err e, fs1) => (Err e, files_read, fs1)
  | (Ok full_path, fs1) =>
      if negb (path_exists fs1 full_path) then (Err ("File not found: " +:+ path), files_read, fs1)
      else match read_to_string fs1 full_path with
           | Err e => (Err ("Failed to read file: " +:+ e), files_read, fs1)
           | Ok content =>
               (Ok (Some (join (String "010" EmptyString) (number_lines 1 (lines content)))),
                {[ path ]} ∪ files_read, fs1)
           end
  end.

(** [execute_edit_memory] *)
Definition execute_edit_memory (data_dir : option string) (path old_string new_string : string)
    (files_read : FilesRead) (fs : FS) : result (option string) string * FS :=
  if negb (bool_decide (path ∈ files_read)) then
    (Err ("Must read_memory('" +:+ path +:+ "') before editing"), fs)
  else
    match resolve_memory_path data_dir path fs with
    | (Err e, fs1) => (Err e, fs1)
    | (Ok full_path, fs1) =>
        if negb (path_exists fs1 full_path) then (Err ("File not found: " +:+ path), fs1)
        else match read_to_string fs1 full_path with
             | Err e => (Err ("Failed to read file: " +:+ e), fs1)
             | Ok content =>
                 let count := count_matches old_string content in
                 if (count =? 0)%nat then
                   (Err "old_string not found in file. Make sure it matches exactly.", fs1)
                 else if (1 <? count)%nat then
                   (Err ("old_string found " +:+ z_to_string (Z.of_nat count) +:+
                         " times. Must be unique."), fs1)
                 else match write_file fs1 full_path (str_replace old_string new_string content) with
                      | (Err e, fs2) => (Err ("Failed to write file: " +:+ e), fs2)
                      | (Ok _, fs2) => (Ok None, fs2)
                      end
             end
    end.

(** byte-wise string order, for [entries.sort()] *)
Fixpoint str_leb (a b : string) : bool :=
  match a, b with
  | EmptyString, _ => true
  | String _ _, EmptyString => false
  | String c a', String d b' =>
      if (nat_of_ascii c <? nat_of_ascii d)%nat then true
      else if (nat_of_ascii d <? nat_of_ascii c)%nat then false
      else str_leb a' b'
  end.

Fixpoint insert_sorted (x : string) (l : list string) : list string :=
  match l with
  | [] => [x]
  | y :: l' => if str_leb x y then x :: l else y :: insert_sorted x l'
  end.

Definition sort_strings (l : list string) : list string := fold_right insert_sorted [] l.

(** the name of [p] inside directory [d], when [p] is a direct child *)
Definition child_name (d p : string) : option string :=
  if starts_with (d +:+ "/") p then
    let rest := String.substring (String.length d + 1) (String.length p) p in
    if contains_char slash rest || String.eqb rest EmptyString then None else Some rest
  else None.

(** [std::fs::read_dir] names, directories suffixed with '/' *)
Definition dir_entries (fs : FS) (d : string) : list string :=
  omap (fun p => option_map (fun n => n +:+ "/") (child_name d p)) (elements fs.(fs_dirs)) ++
  omap (fun kv => child_name d kv.1) (map_to_list fs.(fs_files)).

Definition unwrap_or_str (o : option string) (d : string) : string :=
  match o with Some x => x | None => d end.

(** [execute_list_memories] *)
Definition execute_list_memories (data_dir : option string) (subpath : option string) (fs : FS)
  : result (option string) string * FS :=
  match data_dir with
  | None => (Err NO_DATA_DIR, fs)
  | Some dd =>
      let memories_dir := path_join dd "memories" in
      let target :=
        match subpath with
        | Some sub => resolve_memory_path (Some dd) sub fs
        | None =>
            (Ok memories_dir,
             if negb (path_exists fs memories_dir) then create_dir_all fs memories_dir else fs)
        end in
      match target with
      | (Err e, fs1) => (Err e, fs1)
      | (Ok target_dir, fs1) =>
          if negb (is_dir fs1 target_dir) then
            (Err ("Not a directory: " +:+ unwrap_or_str subpath "."), fs1)
          else (Ok (Some (join (String "010" EmptyString) (sort_strings (dir_entries fs1 target_dir)))), fs1)
      end
  end.

(** [Path::strip_prefix(base)], falling back to the full path *)
Definition strip_base (base p : string) : string :=
  if starts_with (base +:+ "/") p
  then String.substring (String.length base + 1) (String.length p) p else p.

Fixpoint matching_lines (rel pattern : string) (i : nat) (ls : list string) : list string :=
  match ls with
  | [] => []
  | l :: ls' =>
      let rest := matching_lines rel pattern (S i) ls' in
      if contains pattern l then (rel +:+ ":" +:+ z_to_string (Z.of_nat i) +:+ ":" +:+ l) :: rest
      else rest
  end.

(** [search_recursive]: every regular file below [dir] (directory
    traversal order modelled as sorted paths) *)
Definition search_recursive (fs : FS) (dir base pattern : string) : list string :=
  if negb (is_dir fs dir) then []
  else
    let paths := sort_strings (filter (fun p => starts_with (dir +:+ "/") p)
                                      (map fst (map_to_list fs.(fs_files)))) in
    flat_map (fun p => match fs.(fs_files) !! p with
                       | Some content => matching_lines (strip_base base p) pattern 1 (lines content)
                       | None => []
                       end) paths.

(** [execute_search_memories] *)
Definition execute_search_memories (data_dir : option string) (pattern : string)
    (subpath : option string) (fs : FS) : result (option string) string * FS :=
  match data_dir with
  | None => (Err NO_DATA_DIR, fs)
  | Some dd =>
      let memories_dir := path_join dd "memories" in
      let search_dir :=
        match subpath with
        | Some sub =>
            match resolve_memory_path (Some dd) sub fs with
            | (Ok d, fs1) => inl (d, fs1)
            | (Err e, fs1) => inr (Err e, fs1)
            end
        | None =>
            if negb (path_exists fs memories_dir)
            then inr (Ok (Some "No memories directory yet"), fs)
            else inl (memories_dir, fs)
        end in
      match search_dir with
      | inr early => early
      | inl (d, fs1) =>
          let results := search_recursive fs1 d memories_dir pattern in
          if bool_decide (results = []) then (Ok (Some "No matches found"), fs1)
          else (Ok (Some (join (String "010" EmptyString) results)), fs1)
      end
  end.

(** [execute_delete_memory] *)
Definition execute_delete_memory (data_dir : option string) (path : string) (fs : FS)
  : result (option string) string * FS :=
  match resolve_memory_path data_dir path fs with
  | (Err e, fs1) => (Err e, fs1)
  | (Ok full_path, fs1) =>
      if negb (path_exists fs1 full_path) then (Err ("File not found: " +:+ path), fs1)
      else if is_dir fs1 full_path then
        (Err "Cannot delete directories. Delete files individually.", fs1)
      else (Ok None, with_files fs1 (delete full_path fs1.(fs_files)))
  end.

(** The six memory tools, as dispatched by [execute_tool]. *)
Inductive MemoryCall :=
| CreateMemory (path content : string)
| ReadMemory (path : string)
| EditMemory (path old_string new_string : string)
| ListMemories (path : option string)
| SearchMemories (pattern : string) (path : option string)
| DeleteMemory (path : string).

Definition run_memory_tool (data_dir : option string) (files_read : FilesRead) (c : MemoryCall)
    (fs : FS) : result (option string) string * FS :=
  match c with
  | CreateMemory p x => execute_create_memory data_dir p x fs
  | ReadMemory p => let '(r, _, fs') := execute_read_memory data_dir p files_read fs in (r, fs')
  | EditMemory p o n => execute_edit_memory data_dir p o n files_read fs
  | ListMemories p => execute_list_memories data_dir p fs
  | SearchMemories pat p => execute_search_memories data_dir pat p fs
  | DeleteMemory p => execute_delete_memory data_dir p fs
  end.

(** the relative path a call names, when it names one *)
Definition memory_call_path (c : MemoryCall) : option string :=
  match c with
  | CreateMemory p _ | ReadMemory p | EditMemory p _ _ | DeleteMemory p => Some p
  | ListMemories p | SearchMemories _ p => p
  end.

(** the string checks of [resolve_memory_path] *)
Definition unsafe_path (p : string) : bool :=
  contains ".." p || starts_with "/" p || starts_with (String backslash EmptyString) p ||
  String.eqb p EmptyString.

End Memory.

(* ------------------------------------------------------------------ *)
(** ** Reminders: [check_reminders] (src/chatbot/engine.rs), the reminder
    methods of src/chatbot/database.rs *)

Module Reminders.

(** [Reminder]; a [DateTime<Utc>] is a Z timestamp (stored as RFC 3339
    text, whose order is the time order). *)
Record Reminder := {
  id : Z;
  chat_id : Z;
  user_id : Z;
  message : string;
  trigger_at : Z;
  repeat_cron : option string;
  created_at : Z;
  last_triggered_at : option Z;
  active : bool;
}.

(** The reminders table, the wall clock ([clock k] is the reading of the
    k-th [Utc::now()] call, [ticks] the calls made so far) and the
    messages sent. *)
Record SchedState := {
  reminders_tbl : gmap Z Reminder;
  clock : nat -> Z;
  ticks : nat;
  sent : list (Z * string);
}.

(** External collaborators: the Telegram send and the cron crate's
    [next_cron_trigger]. *)
Record SchedEnv := {
  tg_send : Z -> string -> result Z string;
  next_cron_trigger : string -> Z -> result Z string;
}.

Definition utc_now (st : SchedState) : Z * SchedState :=
  (st.(clock) st.(ticks),
   {| reminders_tbl := st.(reminders_tbl); clock := st.(clock); ticks := S st.(ticks);
      sent := st.(sent) |}).

Definition with_table (st : SchedState) (t : gmap Z Reminder) : SchedState :=
  {| reminders_tbl := t; clock := st.(clock); ticks := st.(ticks); sent := st.(sent) |}.

Fixpoint insert_by_trigger (r : Reminder) (l : list Reminder) : list Reminder :=
  match l with
  | [] => [r]
  | x :: l' => if Z.leb r.(trigger_at) x.(trigger_at) then r :: l else x :: insert_by_trigger r l'
  end.

(** [get_due_reminders]: [WHERE active = 1 AND trigger_at <= now ORDER BY trigger_at] *)
Definition get_due_reminders (st : SchedState) : list Reminder * SchedState :=
  let '(now, st1) := utc_now st in
  (fold_right insert_by_trigger []
     (filter (fun r => r.(active) && Z.leb r.(trigger_at) now)
             (map snd (map_to_list st1.(reminders_tbl)))), st1).

(** [mark_reminder_completed]: [UPDATE reminders SET active = 0, last_triggered_at = now WHERE id] *)
Definition mark_reminder_completed (rid : Z) (st : SchedState) : SchedState :=
  let '(now, st1) := utc_now st in
  with_table st1 (alter (fun r =>
    {| id := r.(id); chat_id := r.(chat_id); user_id := r.(user_id); message := r.(message);
       trigger_at := r.(trigger_at); repeat_cron := r.(repeat_cron); created_at := r.(created_at);
       last_triggered_at := Some now; active := false |}) rid st1.(reminders_tbl)).

(** [reschedule_reminder]: [UPDATE reminders SET trigger_at = next, last_triggered_at = now WHERE id] *)
Definition reschedule_reminder (rid : Z) (next_trigger : Z) (st : SchedState) : SchedState :=
  let '(now, st1) := utc_now st in
  with_table st1 (alter (fun r =>
    {| id := r.(id); chat_id := r.(chat_id); user_id := r.(user_id); message := r.(message);
       trigger_at := next_trigger; repeat_cron := r.(repeat_cron); created_at := r.(created_at);
       last_triggered_at := Some now; active := r.(active) |}) rid st1.(reminders_tbl)).

(** one iteration of the [for reminder in due_reminders] loop; a failed
    send is only logged *)
Definition fire_reminder (env : SchedEnv) (r : Reminder) (st : SchedState) : SchedState :=
  let st1 := {| reminders_tbl := st.(reminders_tbl); clock := st.(clock); ticks := st.(ticks);
                sent := st.(sent) ++ [(r.(chat_id), r.(message))] |} in
  match r.(repeat_cron) with
  | Some cron =>
      let '(now, st2) := utc_now st1 in
      match env.(next_cron_trigger) cron now with
      | Ok next_trigger => reschedule_reminder r.(id) next_trigger st2
      | Err _ => mark_reminder_completed r.(id) st2
      end
  | None => mark_reminder_completed r.(id) st1
  end.

(** [check_reminders] *)
Definition check_reminders (env : SchedEnv) (st : SchedState) : SchedState :=
  let '(due, st1) := get_due_reminders st in
  fold_left (fun s r => fire_reminder env r s) due st1.

End Reminders.

(* ------------------------------------------------------------------ *)
(** ** The reasoner turn loop: [process_messages] (src/chatbot/engine.rs) *)

Module Process.
Import Str Message.

(** [ToolCall]: only [Done] is told apart by the loop; the other tools
    are named. *)
Inductive ToolCall := Done | OtherTool (name : string).

Record ToolCallWithId := { tc_id : string; call : ToolCall }.

(** [ToolResult] as the engine builds and reads it; the image carries
    its data. *)
Record ToolResult := {
  tool_use_id : string;
  content : option string;
  is_error : bool;
  image : option string;
}.

Record Response := { tool_calls : list ToolCallWithId; compacted : bool }.

(** the turns sent to the reasoner: [send_message], [send_image_message]
    (the image bytes are left out) and [send_tool_results] *)
Inductive Turn :=
  | TurnText (s : string)
  | TurnImage (s : string)
  | TurnToolResults (rs : list ToolResult).

(** the observable trace: turns sent and tools executed, in order *)
Inductive Event := EvSend (t : Turn) | EvExec (tc : ToolCallWithId).










Definition is_done (tc : ToolCallWithId) : bool :=
  match tc.(call) with Done => true | OtherTool _ => false end.


Definition done_result (tc : ToolCallWithId) : ToolResult :=
  {| tool_use_id := tc.(tc_id); content := None; is_error := false; image := None |}.



Definition result_images (results : list ToolResult) : list string :=
  flat_map (fun r => match r.(image) with Some d => [d] | None => [] end) results.

Section Loop.

(** the state the tools act on (context, archive, Telegram, files read) *)
Context {ToolSt : Type}.

(** [execute_tool], with the batch's fixed arguments, and
    [get_recent_by_tokens] on the archive of that state *)
Record ProcEnv := {
  execute_tool : ToolSt -> ToolCallWithId -> ToolResult * ToolSt;
  get_recent_by_tokens : ToolSt -> nat -> list ChatMessage;
}.

(** the reasoner's answers still to come, the trace, the tool state *)
Record PState := {
  script : list (result Response string);
  trace : list Event;
  tools : ToolSt;
}.

(** the error monad of [?] over the state *)
Definition M (A : Type) : Type := PState -> result A string * PState.

Definition ret {A} (a : A) : M A := fun st => (Ok a, st).

Definition bind {A B} (m : M A) (k : A -> M B) : M B :=
  fun st => match m st with
            | (Ok a, st') => k a st'
            | (Err e, st') => (Err e, st')
            end.

Local Notation "'let!' x ':=' m 'in' k" := (bind m (fun x => k))
  (at level 200, x name, m at level 100, k at level 200).


Definition exec (env : ProcEnv) (tc : ToolCallWithId) : M ToolResult :=
  fun st =>
    let '(res, ts) := env.(execute_tool) st.(tools) tc in
    (Ok res, {| script := st.(script); trace := st.(trace) ++ [EvExec tc]; tools := ts |}).


(** [for tc in &response.tool_calls] *)
Fixpoint execute_calls (env : ProcEnv) (tcs : list ToolCallWithId) : M (list ToolResult) :=
  match tcs with
  | [] => ret []
  | tc :: tcs' =>
      let! r := (if is_done tc then ret (done_result tc) else exec env tc) in
      let! rs := execute_calls env tcs' in
      ret (r :: rs)
  end.




End Loop.

End Process.

(* ------------------------------------------------------------------ *)
(** ** The rest of src/chatbot/context.rs, [handle_edit] of
    src/chatbot/engine.rs and [handle_edited_message] of src/main.rs *)

Module Context.
Import Message Engine.

Definition set_text (m : ChatMessage) (t : string) : ChatMessage :=
  {| message_id := m.(message_id); chat_id := m.(chat_id); user_id := m.(user_id);
     username := m.(username); timestamp := m.(timestamp); text := t;
     reply_to := m.(reply_to); has_image := m.(has_image) |}.

(** [ContextBuffer::edit_message]: [idx < self.messages.len()] is the
    lookup of the vector succeeding *)
Definition cb_edit_message (cb : ContextBuffer) (message_id : Z) (new_text : string)
  : ContextBuffer :=
  match cb.(cb_index) !! message_id with
  | Some idx =>
      match cb.(cb_messages) !! idx with
      | Some m => {| cb_messages := <[idx := set_text m new_text]> cb.(cb_messages);
                     cb_index := cb.(cb_index) |}
      | None => cb
      end
  | None => cb
  end.

(** the [for (idx, msg) in self.messages.iter().enumerate()] loop of
    [rebuild_index] *)
Fixpoint index_from (i : nat) (ms : list ChatMessage) (index : gmap Z nat) : gmap Z nat :=
  match ms with
  | [] => index
  | m :: ms' => index_from (S i) ms' (<[m.(message_id) := i]> index)
  end.

Definition rebuild_index (cb : ContextBuffer) : ContextBuffer :=
  {| cb_messages := cb.(cb_messages); cb_index := index_from 0 cb.(cb_messages) ∅ |}.

(** [ContextBuffer::load] once the state file is read and parsed into its
    message vector *)
Definition cb_load (messages : list ChatMessage) : ContextBuffer :=
  rebuild_index {| cb_messages := messages; cb_index := ∅ |}.

(** the index invariant: every entry points at a message with that id *)
Definition cb_wf (cb : ContextBuffer) : Prop :=
  map_Forall (fun id i => option_map message_id (cb.(cb_messages) !! i) = Some id) cb.(cb_index).

#[global] Instance cb_wf_dec (cb : ContextBuffer) : Decision (cb_wf cb).
Proof. unfold cb_wf. apply _. Defined.

(** the last message of a list with a given id *)
Definition last_with (id : Z) (ms : list ChatMessage) : option ChatMessage :=
  fold_left (fun acc m => if m.(message_id) =? id then Some m else acc) ms None.

(** the position of the last message of a list with a given id *)
Fixpoint last_pos (id : Z) (ms : list ChatMessage) : option nat :=
  match ms with
  | [] => None
  | m :: ms' =>
      match last_pos id ms' with
      | Some k => Some (S k)
      | None => if m.(message_id) =? id then Some O else None
      end
  end.

(** [ChatbotEngine::handle_edit] *)
Definition handle_edit (message_id : Z) (new_text : string) (e : EngineState) : EngineState :=
  {| context := cb_edit_message e.(context) message_id new_text;
     database := e.(database); pending := e.(pending);
     debouncer_started := e.(debouncer_started); debounce_triggers := e.(debounce_triggers) |}.

End Context.

Module Edits.
Import Message Prefilter Engine Main Context.

(** [handle_edited_message]: [msg.text()] only, not the caption *)
Definition handle_edited_message (cfg : Config) (m : TgMessage) (st : BotState) : BotState :=
  match m.(kind) with
  | Private => st
  | Public =>
      if negb (group_allowed cfg m) then st
      else match m.(msg_text) with
           | None => st
           | Some t =>
               match st.(chatbot) with
               | Some e => with_engine st (handle_edit m.(msg_id) t e)
               | None => st
               end
           end
  end.

End Edits.

(* ------------------------------------------------------------------ *)
(** ** The per-character step of the escapers of src/chatbot/message.rs *)

Module Escape.
Import Str Message.

(** the [match c] of [xml_escape] *)
Definition escape_char (c : ascii) : string :=
  if Ascii.eqb c "<" then "&lt;"
  else if Ascii.eqb c ">" then "&gt;"
  else if Ascii.eqb c "&" then "&amp;"
  else String c EmptyString.

(** the [match c] of [xml_escape_attr] *)
Definition escape_attr_char (c : ascii) : string :=
  if Ascii.eqb c "<" then "&lt;"
  else if Ascii.eqb c ">" then "&gt;"
  else if Ascii.eqb c "&" then "&amp;"
  else if Ascii.eqb c dq then "&quot;"
  else String c EmptyString.

End Escape.

(* ------------------------------------------------------------------ *)
(** ** [Database::get_recent_by_tokens] (src/chatbot/database.rs) *)

Module Recent.
Import Str Message Engine.

(** a row read back from [messages]: the image is not stored *)
Definition without_image (m : ChatMessage) : ChatMessage :=
  {| message_id := m.(message_id); chat_id := m.(chat_id); user_id := m.(user_id);
     username := m.(username); timestamp := m.(timestamp); text := m.(text);
     reply_to := m.(reply_to); has_image := false |}.

(** [ORDER BY timestamp DESC, message_id DESC], text compared bytewise *)
Definition before (a b : ChatMessage) : bool :=
  if String.eqb a.(timestamp) b.(timestamp) then (b.(message_id) <=? a.(message_id))
  else Memory.str_leb b.(timestamp) a.(timestamp).

Fixpoint insert_recent (x : ChatMessage) (l : list ChatMessage) : list ChatMessage :=
  match l with
  | [] => [x]
  | y :: l' => if before x y then x :: l else y :: insert_recent x l'
  end.

Definition recent_rows (db : Archive) : list ChatMessage :=
  fold_right insert_recent [] (map without_image (map snd (map_to_list db.(messages_tbl)))).

(** the [for msg in rows.flatten()] loop with its [break] *)
Fixpoint take_budget (chars_budget total_chars : nat) (result rows : list ChatMessage)
  : list ChatMessage :=
  match rows with
  | [] => result
  | msg :: rows' =>
      let msg_chars := String.length (format msg) in
      if (chars_budget <? total_chars + msg_chars)%nat && negb (bool_decide (result = []))
      then result
      else take_budget chars_budget (total_chars + msg_chars) (result ++ [msg]) rows'
  end.

Definition get_recent_by_tokens (db : Archive) (max_tokens : nat) : list ChatMessage :=
  rev (take_budget (max_tokens * 4) 0 [] (recent_rows db)).

(** the byte size of a list of formatted messages *)
Definition formatted_size (l : list ChatMessage) : nat :=
  fold_right (fun m acc => String.length (format m) + acc)%nat 0%nat l.

End Recent.

(* ------------------------------------------------------------------ *)
(** ** [list_reminders] and [cancel_reminder] (src/chatbot/database.rs) *)

Module ReminderQueries.
Import Reminders.

(** [WHERE active = 1 [AND chat_id = ?1] ORDER BY trigger_at ASC] *)
Definition list_reminders (chat_filter : option Z) (st : SchedState) : list Reminder :=
  fold_right insert_by_trigger []
    (filter (fun r => r.(active) &&
                      match chat_filter with Some cid => r.(chat_id) =? cid | None => true end)
            (map snd (map_to_list st.(reminders_tbl)))).

(** [UPDATE reminders SET active = 0 WHERE id = ?1 AND active = 1], then
    [Ok(rows > 0)] *)
Definition cancel_reminder (reminder_id : Z) (st : SchedState) : result bool string * SchedState :=
  match st.(reminders_tbl) !! reminder_id with
  | Some r =>
      if r.(active) then
        (Ok true, with_table st (<[reminder_id :=
           {| id := r.(id); chat_id := r.(chat_id); user_id := r.(user_id); message := r.(message);
              trigger_at := r.(trigger_at); repeat_cron := r.(repeat_cron);
              created_at := r.(created_at); last_triggered_at := r.(last_triggered_at);
              active := false |}]> st.(reminders_tbl)))
      else (Ok false, st)
  | None => (Ok false, st)
  end.

End ReminderQueries.

(* ------------------------------------------------------------------ *)
(** ** Observations used to state properties *)

Module Observations.
Import Message Engine Reminders.

(** [users.message_count] of a user, 0 for a user without a row *)
Definition user_count (db : Archive) (uid : Z) : Z :=
  match db.(users_tbl) !! uid with Some r => r.(ur_message_count) | None => 0 end.

(** the last line [Database::query] adds when it stops at [MAX_ROWS] *)
Definition TRUNCATED : string := "... (truncated, showing first 100 rows)".

(** the order of [ORDER BY trigger_at] *)
Definition trig_le (a b : Reminder) : Prop := (a.(trigger_at) <= b.(trigger_at))%Z.

(** a row after [mark_reminder_completed] at time [t] *)
Definition completed (r : Reminder) (t : Z) : Reminder :=
  {| id := r.(id); chat_id := r.(chat_id); user_id := r.(user_id); message := r.(message);
     trigger_at := r.(trigger_at); repeat_cron := r.(repeat_cron); created_at := r.(created_at);
     last_triggered_at := Some t; active := false |}.

(** every row is stored under its own [id] *)
Definition ids_are_keys (t : gmap Z Reminder) : Prop := map_Forall (fun k r => r.(id) = k) t.

(** the columns of a reminder row other than [active] *)
Definition reminder_fields (r : Reminder) :=
  (r.(id), r.(chat_id), r.(user_id), r.(message), r.(trigger_at), r.(repeat_cron),
   r.(created_at), r.(last_triggered_at)).

End Observations.

(* ------------------------------------------------------------------ *)
(** ** Sample file systems and reminder tables *)

Module StateSamples.
Import Memory Reminders.

(** a data dir [/d] whose [memories] directory exists and is empty *)
Definition mem_fs0 : FS :=
  {| fs_dirs := {[ "/d/memories" ]}; fs_files := ∅; fs_resolve := fun s => s |}.

Definition mem_fs1 : FS := with_files mem_fs0 {[ "/d/memories/a.md" := "hi" ]}.

Definition mem_fs2 : FS := with_files mem_fs1 ∅.

(** a due one-shot reminder and a later one *)
Definition rem_a : Reminder :=
  {| id := 1; chat_id := -100; user_id := 7; message := "standup"; trigger_at := 50;
     repeat_cron := None; created_at := 10; last_triggered_at := None; active := true |}.

Definition rem_b : Reminder :=
  {| id := 2; chat_id := -100; user_id := 7; message := "lunch"; trigger_at := 200;
     repeat_cron := None; created_at := 10; last_triggered_at := None; active := true |}.

Definition rem_st0 : SchedState :=
  {| reminders_tbl := <[1 := rem_a]> {[ 2 := rem_b ]}; clock := fun _ => 100; ticks := 0;
     sent := [] |}.

Definition sched_env0 : SchedEnv :=
  {| tg_send := fun _ _ => Ok 0; next_cron_trigger := fun _ t => Ok (t + 60) |}.

End StateSamples.

(* ------------------------------------------------------------------ *)
(** ** Sample inputs *)

Module Samples.
Import Str Message Prefilter Engine Main.

Definition cfg0 : Config :=
  {| owner_ids := [1]; trusted_dm_users := []; allowed_groups := [];
     trusted_channels := []; spam_patterns := []; safe_patterns := [];
     max_strikes := 3; dry_run := false |}.

Definition user0 : User := {| u_id := 42; u_username := Some "mallory"; u_first_name := "M" |}.

Definition group_msg (id : Z) (t : string) : TgMessage :=
  {| msg_id := id; chat := -5; kind := Public; from := Some user0; sender_chat := None;
     msg_text := Some t; caption := None; photo := false; voice := false;
     docx_document := false; date := "2026-01-01 10:00"; reply_to_message := None |}.

Definition magic_text : string := "hello ANTHROPIC_MAGIC_STRING_ here".
Definition long_text : string := "I have been thinking about the project timeline".

Definition empty_engine : EngineState :=
  {| context := {| cb_messages := []; cb_index := ∅ |};
     database := {| messages_tbl := ∅; users_tbl := ∅ |};
     pending := []; debouncer_started := true; debounce_triggers := 0 |}.

Definition st0 : BotState :=
  {| strikes := ∅; dm_denied := []; chatbot := Some empty_engine; tg_calls := [] |}.

Definition ext_err : External := {| haiku_reply := Err "connection reset"; image_download_ok := true |}.




Definition chat_msg (id : Z) (t : string) : ChatMessage :=
  {| message_id := id; Message.chat_id := -5; Message.user_id := 42; username := "mallory";
     timestamp := "2026-01-01 10:00"; text := t; reply_to := None; has_image := false |}.






End Samples.

(* ------------------------------------------------------------------ *)
(** ** Lemmas on the message formatter *)

Module MessageFacts.
Import Str Message.

Lemma append_assoc (a b c : string) : (a +:+ b) +:+ c = a +:+ (b +:+ c).
Proof. induction a as [|x a IH]; simpl; [reflexivity | now rewrite IH]. Qed.

Lemma expect_app (p r : string) : expect p (p +:+ r) = Some r.
Proof. induction p as [|c p IH]; simpl; [reflexivity | now rewrite Ascii.eqb_refl]. Qed.

Lemma take_until_app (c : ascii) (a r : string) :
  contains_char c a = false -> take_until c (a +:+ String c r) = Some (a, String c r).
Proof.
  induction a as [|d a IH]; simpl; intros H.
  - now rewrite Ascii.eqb_refl.
  - apply orb_false_iff in H as [H1 H2]. rewrite H1, (IH H2). reflexivity.
Qed.

(** no markup-significant byte at all *)
Fixpoint plain (s : string) : bool :=
  match s with
  | EmptyString => true
  | String c s' =>
      negb (Ascii.eqb c "<" || Ascii.eqb c ">" || Ascii.eqb c "&" || Ascii.eqb c dq) && plain s'
  end.

Lemma plain_safe (s : string) :
  plain s = true -> attr_safe s = true /\ contains_char dq s = false.
Proof.
  unfold attr_safe.
  induction s as [|c s IH]; intros H; [split; reflexivity|].
  cbn [plain] in H. apply andb_true_iff in H as [Hc Hs]. destruct (IH Hs) as [H1 H2].
  apply andb_true_iff in H1 as [H1 _].
  destruct (Ascii.eqb c "<") eqn:E1; [discriminate|].
  destruct (Ascii.eqb c ">") eqn:E2; [discriminate|].
  destruct (Ascii.eqb c "&") eqn:E3; [discriminate|].
  destruct (Ascii.eqb c dq) eqn:E4; [discriminate|].
  cbn [entity_safe contains_char]. rewrite E1, E2, E3, (Ascii.eqb_sym dq c), E4.
  cbn [orb andb negb]. rewrite H1, H2. auto.
Qed.

Lemma digit_plain (k : N) (acc : string) :
  (k < 10)%N -> plain acc = true -> plain (String (ascii_of_N (48 + k)) acc) = true.
Proof.
  intros Hk Hacc.
  assert (k = 0 \/ k = 1 \/ k = 2 \/ k = 3 \/ k = 4 \/ k = 5 \/ k = 6 \/ k = 7 \/ k = 8 \/ k = 9)%N
    as Hd by lia.
  repeat destruct Hd as [-> | Hd]; subst; simpl; exact Hacc.
Qed.

Lemma digits_aux_plain (fuel : nat) (n : N) (acc : string) :
  plain acc = true -> plain (digits_aux fuel n acc) = true.
Proof.
  revert n acc; induction fuel as [|f IH]; intros n acc H; simpl; [exact H|].
  assert (Hm : (n mod 10 < 10)%N) by (apply N.mod_lt; lia).
  destruct (n / 10 =? 0)%N; [|apply IH]; apply digit_plain; auto.
Qed.

Lemma z_to_string_safe (z : Z) :
  attr_safe (z_to_string z) = true /\ contains_char dq (z_to_string z) = false.
Proof.
  apply plain_safe. unfold z_to_string, n_to_string.
  destruct (z <? 0);
    [change (plain (digits_aux (S (N.to_nat (N.size (Z.to_N (- z))))) (Z.to_N (- z)) EmptyString) = true)|];
    apply digits_aux_plain; reflexivity.
Qed.

Lemma xml_escape_safe (s : string) :
  entity_safe (xml_escape s) = true /\ contains_char "<" (xml_escape s) = false.
Proof.
  induction s as [|c s [IH1 IH2]]; [split; reflexivity|].
  cbn [xml_escape].
  destruct (Ascii.eqb c "<") eqn:E1; [cbn; rewrite IH1, IH2; auto|].
  destruct (Ascii.eqb c ">") eqn:E2; [cbn; rewrite IH1, IH2; auto|].
  destruct (Ascii.eqb c "&") eqn:E3; [cbn; rewrite IH1, IH2; auto|].
  cbn [append entity_safe contains_char].
  rewrite E1, E2, E3, (Ascii.eqb_sym "<" c), E1. cbn [orb]. auto.
Qed.

Lemma xml_escape_attr_safe (s : string) :
  attr_safe (xml_escape_attr s) = true /\ contains_char dq (xml_escape_attr s) = false.
Proof.
  unfold attr_safe.
  induction s as [|c s IH]; [split; reflexivity|].
  destruct IH as [IH1 IH2]. apply andb_true_iff in IH1 as [IH1 _].
  cbn [xml_escape_attr].
  destruct (Ascii.eqb c "<") eqn:E1; [cbn; rewrite IH1, IH2; auto|].
  destruct (Ascii.eqb c ">") eqn:E2; [cbn; rewrite IH1, IH2; auto|].
  destruct (Ascii.eqb c "&") eqn:E3; [cbn; rewrite IH1, IH2; auto|].
  destruct (Ascii.eqb c dq) eqn:E4; [cbn; rewrite IH1, IH2; auto|].
  cbn [append entity_safe contains_char].
  rewrite E1, E2, E3, (Ascii.eqb_sym dq c), E4, IH1, IH2. cbn [orb andb negb]. auto.
Qed.

Lemma no_reply_prefix (a : string) :
  contains_char "<" a = false -> starts_with "<reply" (a +:+ "</msg>") = false.
Proof.
  destruct a as [|c a]; intros H; [reflexivity|].
  cbn [contains_char] in H. apply orb_false_iff in H as [H _].
  cbn [append starts_with]. rewrite H. reflexivity.
Qed.

End MessageFacts.

(* ------------------------------------------------------------------ *)
(** ** Claims *)

Module MessageClaims.
Import Str Message MessageFacts.

Ltac parse_steps :=
  repeat (first
    [ rewrite append_assoc
    | rewrite take_until_app by assumption
    | match goal with H : ?x = true |- context [?x] => rewrite H end
    | progress cbn ]).

Ltac parse_steps_no_reply :=
  repeat (first
    [ rewrite append_assoc
    | rewrite take_until_app by assumption
    | rewrite no_reply_prefix by assumption
    | match goal with H : ?x = true |- context [?x] => rewrite H end
    | progress cbn -[starts_with] ]).

(** C2 (escape soundness): for every [ChatMessage] [m], [format m] is
    accepted by the recogniser [well_delimited]: it is a [<msg>] element
    with the attributes id, chat, user, name, time, optionally a [<reply>]
    element with attributes id and from, and character data; every
    attribute value has no raw '<', '>' or double quote, every piece of
    character data has no raw '<' or '>', and every '&' in either starts an
    entity reference.  So raw '<' and '>' occur only as the formatter's own
    delimiters, for the body, the quoted reply and every attribute. *)
Theorem format_escape_sound (m : ChatMessage) : well_delimited (format m) = true.
Proof.
  destruct m as [id ch uid un ts tx rt img]. unfold well_delimited, format.
  cbn [Message.message_id Message.chat_id Message.user_id Message.username
       Message.timestamp Message.text Message.reply_to].
  destruct (z_to_string_safe id) as [A1 B1]. revert A1 B1. generalize (z_to_string id) as zi. intros zi A1 B1.
  destruct (z_to_string_safe ch) as [A2 B2]. revert A2 B2. generalize (z_to_string ch) as zc. intros zc A2 B2.
  destruct (z_to_string_safe uid) as [A3 B3]. revert A3 B3. generalize (z_to_string uid) as zu. intros zu A3 B3.
  destruct (xml_escape_attr_safe un) as [A4 B4]. revert A4 B4. generalize (xml_escape_attr un) as en. intros en A4 B4.
  destruct (xml_escape_attr_safe ts) as [A5 B5]. revert A5 B5. generalize (xml_escape_attr ts) as et. intros et A5 B5.
  destruct (xml_escape_safe tx) as [A6 B6]. revert A6 B6. generalize (xml_escape tx) as ex. intros ex A6 B6.
  destruct rt as [[rid run rtx]|].
  - cbn [reply_message_id reply_username reply_text].
    destruct (z_to_string_safe rid) as [A7 B7]. revert A7 B7. generalize (z_to_string rid) as zr. intros zr A7 B7.
    destruct (xml_escape_attr_safe run) as [A8 B8]. revert A8 B8. generalize (xml_escape_attr run) as er. intros er A8 B8.
    match goal with |- context [xml_escape ?t] =>
      destruct (xml_escape_safe t) as [A9 B9]; revert A9 B9; generalize (xml_escape t) as eq; intros eq A9 B9 end.
    unfold parse_open, parse_attrs, parse_attr, parse_text.
    parse_steps. reflexivity.
  - unfold parse_open, parse_attrs, parse_attr, parse_text.
    parse_steps_no_reply. reflexivity.
Qed.

End MessageClaims.

Module ModerationClaims.
Import Message Prefilter Classifier Engine Main.

(** C1 (no spam leakage): a group message in an allowed group, from a user,
    with text, not bypassing the filter, that the pipeline classifies as
    spam (prefilter [ObviousSpam], or [Ambiguous] and the classifier
    [Ok Spam]) leaves the engine untouched: neither the archive nor the
    context nor the Pending Batch changes.  The sender's strike counter is
    incremented and, outside dry-run mode, a delete call is issued. *)
Theorem spam_never_reaches_engine (cfg : Config) (ext : External) (m : TgMessage)
    (st : BotState) (u : User) (t : string) :
  m.(from) = Some u -> m.(kind) = Public -> group_allowed cfg m = true ->
  text_of m = Some t -> bypass_filter cfg m u = false ->
  (prefilter t cfg = ObviousSpam \/
   (prefilter t cfg = Ambiguous /\ classify ext.(haiku_reply) = Ok Spam)) ->
  let st' := handle_new_message cfg ext m st in
  st'.(chatbot) = st.(chatbot) /\
  st'.(strikes) !! u.(u_id) = Some ((unwrap_or (st.(strikes) !! u.(u_id)) 0 + 1) mod 256) /\
  (cfg.(dry_run) = false -> In (TgDelete m.(chat) m.(msg_id)) st'.(tg_calls)).
Proof.
  intros Hf Hk Hg Ht Hb Hp st'. subst st'.
  assert (Hs : is_spam cfg ext m u = true).
  { unfold is_spam. rewrite Ht, Hb.
    destruct Hp as [-> | [-> ->]]; reflexivity. }
  unfold handle_new_message. rewrite Hf, Hk, Hg, Hs. cbn [negb].
  destruct (text_of m) eqn:Et; [|discriminate]. cbn [andb].
  destruct (dry_run cfg) eqn:Ed; cbn;
    destruct (max_strikes cfg <=? _); cbn; rewrite ?lookup_insert_eq;
    repeat split; try reflexivity; intros; try discriminate;
    rewrite ?in_app_iff; cbn; auto.
Qed.

(** C9 (fail open): an ambiguous group message (allowed group, from a
    user, with text, not bypassing the filter) for which the classifier
    call returns an error is handled as a non-spam message: the handler
    result is the forwarding to the engine's intake, no strike is added,
    no Telegram call (delete or ban) is made, and the engine (when
    configured) receives the message through [handle_message]. *)
Theorem classifier_error_fails_open (cfg : Config) (ext : External) (m : TgMessage)
    (st : BotState) (u : User) (t e : string) :
  m.(from) = Some u -> m.(kind) = Public -> group_allowed cfg m = true ->
  text_of m = Some t -> bypass_filter cfg m u = false ->
  prefilter t cfg = Ambiguous -> ext.(haiku_reply) = Err e ->
  let st' := handle_new_message cfg ext m st in
  st' = forward ext m st /\
  st'.(strikes) = st.(strikes) /\
  st'.(tg_calls) = st.(tg_calls) /\
  st'.(chatbot) =
    option_map (handle_message (telegram_to_chat_message m (m.(photo) && ext.(image_download_ok))))
      st.(chatbot).
Proof.
  intros Hf Hk Hg Ht Hb Hp He st'. subst st'.
  assert (Hs : is_spam cfg ext m u = false).
  { unfold is_spam. rewrite Ht, Hb, Hp. unfold classify. rewrite He. reflexivity. }
  unfold handle_new_message. rewrite Hf, Hk, Hg, Hs, Ht. cbn [negb andb].
  unfold forward. destruct st as [s0 d0 [e0|] c0]; cbn; repeat split.
Qed.

Lemma spam_never_reaches_engine_witness :
  let m := Samples.group_msg 100 Samples.magic_text in
  let st' := handle_new_message Samples.cfg0 Samples.ext_err m Samples.st0 in
  st'.(chatbot) = Samples.st0.(chatbot) /\
  st'.(strikes) !! Samples.user0.(u_id) =
    Some ((unwrap_or (Samples.st0.(strikes) !! Samples.user0.(u_id)) 0 + 1) mod 256) /\
  (Samples.cfg0.(dry_run) = false -> In (TgDelete m.(chat) m.(msg_id)) st'.(tg_calls)).
Proof.
  apply (spam_never_reaches_engine Samples.cfg0 Samples.ext_err _ Samples.st0 Samples.user0
           Samples.magic_text); try reflexivity.
  left. reflexivity.
Defined.

Lemma classifier_error_fails_open_witness :
  let m := Samples.group_msg 101 Samples.long_text in
  let st' := handle_new_message Samples.cfg0 Samples.ext_err m Samples.st0 in
  st' = forward Samples.ext_err m Samples.st0 /\
  st'.(strikes) = Samples.st0.(strikes) /\
  st'.(tg_calls) = Samples.st0.(tg_calls) /\
  st'.(chatbot) =
    option_map (handle_message (telegram_to_chat_message m
                  (m.(photo) && Samples.ext_err.(image_download_ok)))) Samples.st0.(chatbot).
Proof.
  apply (classifier_error_fails_open Samples.cfg0 Samples.ext_err _ Samples.st0 Samples.user0
           Samples.long_text "connection reset"); reflexivity.
Defined.




End ModerationClaims.

Module ToolClaims.
Import Str Str2 Message Engine Tools Query.

(** C10: [execute_mute_user] never rejects a duration: the Telegram mute
    call is made with [clamp duration_minutes 1 1440] (that is
    [max 1 (min duration_minutes 1440)], so within [1, 1440]), and the tool
    fails only when that Telegram call fails. *)
Theorem mute_duration_clamped (cfg : ChatbotConfig) (tg : Transport) (chat user d : Z)
    (st : ToolState) :
  let '(r, st') := execute_mute_user cfg tg chat user d st in
  clamp d 1 1440 = Z.max 1 (Z.min d 1440) /\
  1 <= clamp d 1 1440 <= 1440 /\
  (exists rest, st'.(api_calls) = st.(api_calls) ++ ApiMute chat user (clamp d 1 1440) :: rest) /\
  r = match tg (ApiMute chat user (clamp d 1 1440)) with Ok _ => Ok None | Err e => Err e end.
Proof.
  assert (Hc : clamp d 1 1440 = Z.max 1 (Z.min d 1440)).
  { unfold clamp. destruct (d <? 1) eqn:E1; [apply Z.ltb_lt in E1; lia|].
    apply Z.ltb_ge in E1. destruct (1440 <? d) eqn:E2; [apply Z.ltb_lt in E2 | apply Z.ltb_ge in E2]; lia. }
  unfold execute_mute_user, call. cbn [api_calls t_context t_database].
  destruct (tg (ApiMute chat user (clamp d 1 1440))) eqn:Et;
    [destruct (owner cfg) |]; cbn; (split; [exact Hc|]); (split; [lia|]);
    (split; [|reflexivity]).
  - exists [ApiSend z (MUTE_ICON +:+ " Muted user " +:+ z_to_string user +:+ " for " +:+
            z_to_string (clamp d 1 1440) +:+ " min in chat " +:+ z_to_string chat) None].
    now rewrite <- app_assoc.
  - exists []. reflexivity.
  - exists []. reflexivity.
Qed.

(** C6, as amended: for a [send_message] with a reply id, the Telegram
    send carries the reply id when the Context Buffer has no message with
    that id, or has one whose chat is the target chat; the hint is dropped
    only when the Context Buffer's message with that id is in another chat. *)
Theorem send_message_reply_hint (cfg : ChatbotConfig) (tg : Transport) (now_hm : string)
    (chat : Z) (txt : string) (rid : Z) (st : ToolState) :
  let '(_, st') := execute_send_message cfg tg now_hm chat txt (Some rid) st in
  st'.(api_calls) = st.(api_calls) ++
    [ApiSend chat txt
       (match cb_get_message st.(t_context) rid with
        | Some orig => if orig.(Message.chat_id) =? chat then Some rid else None
        | None => Some rid
        end)].
Proof.
  unfold execute_send_message, validate_reply, call. cbn [api_calls t_context t_database].
  destruct (tg _); reflexivity.
Qed.

(** C6 as stated fails: with an empty Context Buffer, a reply id 7 is
    still sent to Telegram, although the buffer holds no message 7. *)
Lemma send_message_reply_hint_counterexample :
  let st := {| t_context := {| cb_messages := []; cb_index := ∅ |};
               t_database := {| messages_tbl := ∅; users_tbl := ∅ |}; api_calls := [] |} in
  let cfg := {| owner := None; bot_user_id := 999; data_dir := None |} in
  cb_get_message st.(t_context) 7 = None /\
  (snd (execute_send_message cfg (fun _ => Ok 500) "10:00" (-5) "hi" (Some 7) st)).(api_calls)
    = [ApiSend (-5) "hi" (Some 7)].
Proof. split; reflexivity. Qed.

Lemma first_forbidden_some (s : string) (ps : list string) (p : string) :
  In p ps -> contains p s = true -> exists q, first_forbidden s ps = Some q.
Proof.
  induction ps as [|p' ps IH]; intros Hin Hc; [destruct Hin|]. cbn.
  destruct (contains p' s) eqn:E; [eauto|].
  destruct Hin as [-> | Hin]; [congruence | eauto].
Qed.

(** C5: when the trimmed, uppercased statement does not start with SELECT,
    or contains one of INSERT, UPDATE, DELETE, DROP, ALTER, CREATE, ATTACH,
    DETACH, [query] returns an error and does nothing on the database: the
    statement is never prepared and no row is fetched. *)
Theorem query_rejects_unsafe (conn : SqlConn) (sql : string) :
  starts_with "SELECT" (to_uppercase (trim sql)) = false \/
  (exists p, In p FORBIDDEN /\ contains p (to_uppercase (trim sql)) = true) ->
  exists e, query conn sql = (Err e, []).
Proof.
  intros H. unfold query.
  destruct (starts_with "SELECT" (to_uppercase (trim sql))) eqn:Es; cbn [negb]; [|eauto].
  destruct H as [H | [p [Hin Hc]]]; [discriminate|].
  destruct (first_forbidden_some _ _ _ Hin Hc) as [q Hq]. rewrite Hq. eauto.
Qed.

Lemma query_rejects_unsafe_witness :
  exists e, query {| sql_prepare := fun _ => Ok ["id"]; sql_execute := fun _ => Ok [] |}
              "  select * from users; drop table users" = (Err e, []).
Proof.
  apply query_rejects_unsafe. right. exists "DROP". split; [cbn; tauto | reflexivity].
Defined.

End ToolClaims.

Module MemoryClaims.
Import Str Memory.

Lemma resolve_unsafe (dd : option string) (p : string) (fs : FS) :
  unsafe_path p = true -> exists e, resolve_memory_path dd p fs = (Err e, fs).
Proof.
  intros H. unfold resolve_memory_path. destruct dd as [d|]; [|eauto].
  unfold unsafe_path in H.
  destruct (contains ".." p); [eauto|].
  destruct (starts_with "/" p) eqn:E1; [eauto|].
  destruct (starts_with (String backslash EmptyString) p) eqn:E2; [eauto|].
  cbn [orb] in H. rewrite H. eauto.
Qed.

(** C4 (path safety): every memory-tool call (create, read, edit, list,
    search, delete) naming a relative path that contains "..", starts with
    '/' or '\', or is empty returns an error and leaves the file system
    exactly as it was: the string checks come before any directory
    creation, write or removal. *)
Theorem memory_tools_reject_unsafe_paths (dd : option string) (files_read : FilesRead)
    (c : MemoryCall) (fs : FS) (p : string) :
  memory_call_path c = Some p -> unsafe_path p = true ->
  exists e, run_memory_tool dd files_read c fs = (Err e, fs).
Proof.
  intros Hc Hu. destruct (resolve_unsafe dd p fs Hu) as [e He].
  destruct c as [p0 x | p0 | p0 o n | [p0|] | pat [p0|] | p0]; cbn in Hc;
    try discriminate; injection Hc as <-; cbn [run_memory_tool].
  - unfold execute_create_memory. rewrite He. eauto.
  - unfold execute_read_memory. rewrite He. eauto.
  - unfold execute_edit_memory. destruct (negb _); [eauto|]. rewrite He. eauto.
  - unfold execute_list_memories. destruct dd as [d|]; [|eauto].
    rewrite He. eauto.
  - unfold execute_search_memories. destruct dd as [d|]; [|eauto].
    rewrite He. eauto.
  - unfold execute_delete_memory. rewrite He. eauto.
Qed.

Lemma memory_tools_reject_unsafe_paths_witness :
  exists e, run_memory_tool (Some "data") ∅ (CreateMemory "../../etc/passwd" "x")
              {| fs_dirs := {["data"]}; fs_files := ∅; fs_resolve := fun q => q |}
            = (Err e, {| fs_dirs := {["data"]}; fs_files := ∅; fs_resolve := fun q => q |}).
Proof.
  apply (memory_tools_reject_unsafe_paths _ _ _ _ "../../etc/passwd"); reflexivity.
Defined.

End MemoryClaims.

(* ------------------------------------------------------------------ *)
(** ** Claims on the reminder scheduler *)

Module ReminderClaims.
Import Reminders.

Lemma alter_as_insert (f : Reminder -> Reminder) (i : Z) (m : gmap Z Reminder) (x : Reminder) :
  m !! i = Some x -> alter f i m = <[i := f x]> m.
Proof.
  intros H. rewrite <- (insert_id m i x H) at 1.
  rewrite alter_insert, decide_True by reflexivity. reflexivity.
Qed.

(** C8: firing a due reminder [r] (still the row of the table, active)
    sends its message to its chat and rewrites only its own row: with
    [repeat_cron] set and a next occurrence [n] of the cron expression
    after the wall clock [t0] read for it, [trigger_at] becomes [n]
    (strictly after [t0] when the cron crate returns strictly later
    occurrences), [active] stays true and [last_triggered_at] is the
    clock read by the update; without [repeat_cron], or when the cron
    evaluation fails, [active] becomes false and [last_triggered_at] is
    the clock read by the update; the other columns are kept. *)
Theorem reminder_fire_updates_row (env : SchedEnv) (r : Reminder) (st : SchedState)
  (Hcron : forall c t n, env.(next_cron_trigger) c t = Ok n -> t < n)
  (Hrow : st.(reminders_tbl) !! r.(id) = Some r)
  (Hact : r.(active) = true) :
  let st' := fire_reminder env r st in
  let t0 := st.(clock) st.(ticks) in
  let t1 := st.(clock) (S st.(ticks)) in
  st'.(sent) = st.(sent) ++ [(r.(chat_id), r.(message))] /\
  exists r', st'.(reminders_tbl) = <[r.(id) := r']> st.(reminders_tbl) /\
    r'.(id) = r.(id) /\ r'.(chat_id) = r.(chat_id) /\ r'.(user_id) = r.(user_id) /\
    r'.(message) = r.(message) /\ r'.(repeat_cron) = r.(repeat_cron) /\
    r'.(created_at) = r.(created_at) /\
    match r.(repeat_cron) with
    | Some c =>
        match env.(next_cron_trigger) c t0 with
        | Ok n => r'.(trigger_at) = n /\ t0 < n /\ r'.(active) = true /\
                  r'.(last_triggered_at) = Some t1
        | Err _ => r'.(trigger_at) = r.(trigger_at) /\ r'.(active) = false /\
                   r'.(last_triggered_at) = Some t1
        end
    | None => r'.(trigger_at) = r.(trigger_at) /\ r'.(active) = false /\
              r'.(last_triggered_at) = Some t0
    end.
Proof.
  cbv zeta. unfold fire_reminder.
  destruct (repeat_cron r) as [c|] eqn:Ec.
  - cbn. destruct (next_cron_trigger env c (clock st (ticks st))) as [n|e] eqn:En;
      cbn; (split; [reflexivity|]); eexists;
      (split; [apply alter_as_insert; exact Hrow|]); cbn;
      rewrite ?Ec, ?En, ?Hact; repeat split; auto; exact (Hcron _ _ _ En).
  - cbn. split; [reflexivity|]. eexists.
    split; [apply alter_as_insert; exact Hrow|]. cbn.
    rewrite Ec. repeat split; auto.
Qed.

Lemma reminder_fire_updates_row_witness :
  let env := {| tg_send := fun _ _ => Ok 1; next_cron_trigger := fun _ t => Ok (t + 60) |} in
  let r := {| id := 7; chat_id := -5; user_id := 42; message := "stand-up"; trigger_at := 100;
              repeat_cron := Some "0 9 * * *"; created_at := 0; last_triggered_at := None;
              active := true |} in
  let st := {| reminders_tbl := <[7 := r]> ∅; clock := fun k => 100 + Z.of_nat k; ticks := 1;
               sent := [] |} in
  (forall c t n, env.(next_cron_trigger) c t = Ok n -> t < n) /\
  st.(reminders_tbl) !! r.(id) = Some r /\ r.(active) = true /\
  (let st' := fire_reminder env r st in
   let t0 := st.(clock) st.(ticks) in
   let t1 := st.(clock) (S st.(ticks)) in
   st'.(sent) = st.(sent) ++ [(r.(chat_id), r.(message))] /\
   exists r', st'.(reminders_tbl) = <[r.(id) := r']> st.(reminders_tbl) /\
    r'.(id) = r.(id) /\ r'.(chat_id) = r.(chat_id) /\ r'.(user_id) = r.(user_id) /\
    r'.(message) = r.(message) /\ r'.(repeat_cron) = r.(repeat_cron) /\
    r'.(created_at) = r.(created_at) /\
    match r.(repeat_cron) with
    | Some c =>
        match env.(next_cron_trigger) c t0 with
        | Ok n => r'.(trigger_at) = n /\ t0 < n /\ r'.(active) = true /\
                  r'.(last_triggered_at) = Some t1
        | Err _ => r'.(trigger_at) = r.(trigger_at) /\ r'.(active) = false /\
                   r'.(last_triggered_at) = Some t1
        end
    | None => r'.(trigger_at) = r.(trigger_at) /\ r'.(active) = false /\
              r'.(last_triggered_at) = Some t0
    end).
Proof.
  cbv zeta. split; [|split; [|split]].
  - cbn. intros c t n H. injection H as <-. lia.
  - reflexivity.
  - reflexivity.
  - apply reminder_fire_updates_row.
    + cbn. intros c t n H. injection H as <-. lia.
    + reflexivity.
    + reflexivity.
Defined.

End ReminderClaims.

(* ------------------------------------------------------------------ *)
(** ** Claims on the reasoner turn loop *)

Module ProcessClaims.
Import Str Message Process Samples.

Lemma str_length_app (a b : string) : String.length (a +:+ b) = (String.length a + String.length b)%nat.
Proof. induction a as [|c a IH]; cbn; [reflexivity|]. rewrite IH. reflexivity. Qed.



Lemma result_images_none (results : list ToolResult) :
  Forall (fun r => r.(image) = None) results -> result_images results = [].
Proof.
  induction 1 as [|r rs Hr _ IH]; [reflexivity|].
  unfold result_images in *. cbn. rewrite Hr. exact IH.
Qed.







End ProcessClaims.

(* ------------------------------------------------------------------ *)
(** ** Properties of the context buffer *)

Module ContextFacts.
Import Message Engine Context.

Lemma index_from_lookup (id : Z) (ms : list ChatMessage) :
  forall i index, index_from i ms index !! id =
    match last_pos id ms with Some k => Some (i + k)%nat | None => index !! id end.
Proof.
  induction ms as [|m ms IH]; intros i index; cbn [index_from last_pos]; [reflexivity|].
  rewrite IH. destruct (last_pos id ms) as [k|]; [f_equal; lia|].
  destruct (Z.eqb_spec (message_id m) id) as [<-|Hne].
  - rewrite lookup_insert_eq. f_equal. lia.
  - rewrite lookup_insert_ne by congruence. reflexivity.
Qed.

Lemma last_with_pos (id : Z) (ms : list ChatMessage) :
  forall acc, fold_left (fun acc m => if m.(message_id) =? id then Some m else acc) ms acc =
    match last_pos id ms with Some k => ms !! k | None => acc end.
Proof.
  induction ms as [|m ms IH]; intros acc; cbn [fold_left last_pos]; [reflexivity|].
  rewrite IH. destruct (last_pos id ms) as [k|]; [reflexivity|].
  destruct (message_id m =? id); reflexivity.
Qed.

Lemma last_pos_id (id : Z) (ms : list ChatMessage) (k : nat) :
  last_pos id ms = Some k -> option_map message_id (ms !! k) = Some id.
Proof.
  revert k. induction ms as [|m ms IH]; intros k; cbn [last_pos]; [discriminate|].
  destruct (last_pos id ms) as [k'|] eqn:E.
  - intros [= <-]. cbn. apply IH. reflexivity.
  - destruct (Z.eqb_spec (message_id m) id) as [<-|]; [intros [= <-]; reflexivity|discriminate].
Qed.

Lemma wf_lookup (cb : ContextBuffer) (id : Z) (i : nat) :
  cb_wf cb -> cb.(cb_index) !! id = Some i ->
  exists m, cb.(cb_messages) !! i = Some m /\ message_id m = id.
Proof.
  intros Hwf Hi. specialize (Hwf id i Hi). cbn in Hwf.
  destruct (cb_messages cb !! i) as [m|]; [|discriminate].
  injection Hwf as <-. eauto.
Qed.

(** [add_message] then [get_message] with the added message's id returns
    that message, whatever the buffer held under that id before. *)
Theorem add_then_get (cb : ContextBuffer) (m : ChatMessage) :
  cb_get_message (cb_add_message cb m) m.(message_id) = Some m.
Proof.
  unfold cb_get_message, cb_add_message. cbn [cb_index cb_messages].
  rewrite lookup_insert_eq, lookup_app_r by lia. rewrite Nat.sub_diag. reflexivity.
Qed.

(** [edit_message id t] changes the text of the message [get_message id]
    returns and nothing else of it (and does nothing when the id is
    unknown); in a buffer whose index is consistent, the messages of the
    other ids are unchanged. *)
Theorem edit_then_get (cb : ContextBuffer) (id : Z) (t : string) :
  cb_get_message (cb_edit_message cb id t) id = option_map (fun m => set_text m t) (cb_get_message cb id) /\
  (cb_wf cb -> forall j, j <> id -> cb_get_message (cb_edit_message cb id t) j = cb_get_message cb j).
Proof.
  unfold cb_get_message, cb_edit_message.
  destruct (cb_index cb !! id) as [n|] eqn:E; [|split; [rewrite E; reflexivity|reflexivity]].
  destruct (cb_messages cb !! n) as [m|] eqn:E2; cbn [cb_index cb_messages];
    [|split; [rewrite E, E2; reflexivity|intros; reflexivity]].
  split.
  - rewrite E. cbn. apply list_lookup_insert_eq. apply lookup_lt_is_Some_1. rewrite E2. eauto.
  - intros Hwf j Hj. destruct (cb_index cb !! j) as [k|] eqn:Ek; [|reflexivity].
    destruct (decide (n = k)) as [<-|Hnk].
    + destruct (wf_lookup cb id n Hwf E) as [m1 [H1 H1']].
      destruct (wf_lookup cb j n Hwf Ek) as [m2 [H2 H2']]. congruence.
    + apply list_lookup_insert_ne. exact Hnk.
Qed.

(** Loading a saved message vector rebuilds the index so that
    [get_message id] returns the last message of the vector with that id
    ([None] when there is none). *)
Theorem load_get_last (messages : list ChatMessage) (id : Z) :
  cb_get_message (cb_load messages) id = last_with id messages.
Proof.
  unfold cb_get_message, cb_load, rebuild_index, last_with. cbn [cb_index cb_messages].
  rewrite index_from_lookup, last_with_pos.
  destruct (last_pos id messages); reflexivity.
Qed.

(** The index invariant (every index entry points at a message carrying
    that id) holds after [load] and is kept by [add_message] and
    [edit_message]; under it [get_message id] only ever returns a message
    whose id is [id]. *)
Theorem index_invariant :
  (forall messages, cb_wf (cb_load messages)) /\
  (forall cb m, cb_wf cb -> cb_wf (cb_add_message cb m)) /\
  (forall cb id t, cb_wf cb -> cb_wf (cb_edit_message cb id t)) /\
  (forall cb id m, cb_wf cb -> cb_get_message cb id = Some m -> m.(message_id) = id).
Proof.
  split; [|split; [|split]].
  - intros messages id i. unfold cb_load, rebuild_index. cbn [cb_index cb_messages].
    rewrite index_from_lookup. destruct (last_pos id messages) as [k|] eqn:E; [|discriminate].
    intros [= <-]. apply last_pos_id. exact E.
  - intros cb m Hwf. unfold cb_add_message, cb_wf. cbn [cb_index cb_messages].
    apply map_Forall_insert_2.
    + rewrite lookup_app_r by lia. rewrite Nat.sub_diag. reflexivity.
    + intros id i Hi. destruct (wf_lookup cb id i Hwf Hi) as [m' [H1 H2]].
      rewrite (lookup_app_l_Some _ _ _ _ H1). cbn. congruence.
  - intros cb id t Hwf. unfold cb_edit_message.
    destruct (cb_index cb !! id) as [n|] eqn:E; [|exact Hwf].
    destruct (cb_messages cb !! n) as [m|] eqn:E2; [|exact Hwf].
    intros j k Hk. cbn [cb_index cb_messages] in *.
    destruct (wf_lookup cb j k Hwf Hk) as [m' [H1 H2]].
    destruct (decide (n = k)) as [<-|Hnk].
    + rewrite list_lookup_insert_eq by (apply lookup_lt_is_Some_1; rewrite E2; eauto).
      cbn. congruence.
    + rewrite list_lookup_insert_ne by exact Hnk. rewrite H1. cbn. congruence.
  - intros cb id m Hwf. unfold cb_get_message.
    destruct (cb_index cb !! id) as [i|] eqn:E; [|discriminate].
    intros Hm. destruct (wf_lookup cb id i Hwf E) as [m' [H1 H2]]. congruence.
Qed.

(** In a buffer whose index is consistent, [add_message m] leaves what
    [get_message] returns for every other id unchanged. *)
Theorem add_keeps_others (cb : ContextBuffer) (m : ChatMessage) (j : Z) :
  cb_wf cb -> j <> m.(message_id) ->
  cb_get_message (cb_add_message cb m) j = cb_get_message cb j.
Proof.
  intros Hwf Hj. unfold cb_get_message, cb_add_message. cbn [cb_index cb_messages].
  rewrite lookup_insert_ne by congruence.
  destruct (cb_index cb !! j) as [i|] eqn:E; [|reflexivity].
  destruct (wf_lookup cb j i Hwf E) as [m' [H1 _]].
  rewrite H1. apply lookup_app_l_Some. exact H1.
Qed.

Lemma add_keeps_others_witness :
  let cb := cb_load [Samples.chat_msg 1 "a"; Samples.chat_msg 2 "b"] in
  cb_wf cb /\ 1 <> (Samples.chat_msg 3 "c").(message_id) /\
  cb_get_message (cb_add_message cb (Samples.chat_msg 3 "c")) 1 = cb_get_message cb 1.
Proof.
  cbv zeta. assert (Hwf : cb_wf (cb_load [Samples.chat_msg 1 "a"; Samples.chat_msg 2 "b"]))
    by (apply (bool_decide_unpack _); vm_compute; reflexivity).
  split; [exact Hwf|split; [discriminate|]].
  apply add_keeps_others; [exact Hwf|discriminate].
Defined.

End ContextFacts.

Module EditFacts.
Import Message Prefilter Engine Main Context Edits.

(** An edited message never reaches the archive, the pending batch, the
    debouncer, the strike counters or Telegram: [handle_edited_message]
    changes at most the context buffer, and there only message texts
    (the index and the number of messages stay the same). *)
Theorem edit_touches_only_context (cfg : Config) (m : TgMessage) (st : BotState) :
  let st' := handle_edited_message cfg m st in
  st'.(strikes) = st.(strikes) /\ st'.(dm_denied) = st.(dm_denied) /\
  st'.(tg_calls) = st.(tg_calls) /\
  match st.(chatbot), st'.(chatbot) with
  | Some e, Some e' =>
      e'.(database) = e.(database) /\ e'.(pending) = e.(pending) /\
      e'.(debouncer_started) = e.(debouncer_started) /\
      e'.(debounce_triggers) = e.(debounce_triggers) /\
      e'.(context).(cb_index) = e.(context).(cb_index) /\
      map message_id e'.(context).(cb_messages) = map message_id e.(context).(cb_messages)
  | None, None => True
  | _, _ => False
  end.
Proof.
  cbv zeta. unfold handle_edited_message.
  assert (Hsame : forall e : EngineState,
    e.(database) = e.(database) /\ e.(pending) = e.(pending) /\
    e.(debouncer_started) = e.(debouncer_started) /\
    e.(debounce_triggers) = e.(debounce_triggers) /\
    e.(context).(cb_index) = e.(context).(cb_index) /\
    map message_id e.(context).(cb_messages) = map message_id e.(context).(cb_messages))
    by (intros; repeat split).
  destruct (chatbot st) as [e|] eqn:Ec.
  - destruct (kind m); [rewrite Ec; repeat split; apply Hsame|].
    destruct (negb (group_allowed cfg m)); [rewrite Ec; repeat split; apply Hsame|].
    destruct (msg_text m) as [t|]; [|rewrite Ec; repeat split; apply Hsame].
    cbn. unfold cb_edit_message.
    destruct (cb_index (context e) !! msg_id m) as [n|]; [|repeat split].
    destruct (cb_messages (context e) !! n) as [x|] eqn:Ex; [|repeat split].
    cbn. repeat split. apply list_eq. intros i. rewrite !list_lookup_fmap.
    destruct (decide (n = i)) as [<-|Hne].
    + rewrite list_lookup_insert_eq by (apply lookup_lt_is_Some_1; rewrite Ex; eauto).
      rewrite Ex. reflexivity.
    + rewrite list_lookup_insert_ne by exact Hne. reflexivity.
  - destruct (kind m); [rewrite Ec; repeat split|].
    destruct (negb (group_allowed cfg m)); [rewrite Ec; repeat split|].
    destruct (msg_text m) as [t|]; rewrite Ec; repeat split.
Qed.

End EditFacts.

(* ------------------------------------------------------------------ *)
(** ** Properties of the escapers and of [truncate_safe] *)

Module EscapeFacts.
Import Str Message Escape.

Lemma xml_escape_cons (c : ascii) (s : string) :
  xml_escape (String c s) = escape_char c +:+ xml_escape s.
Proof. reflexivity. Qed.

Lemma xml_escape_attr_cons (c : ascii) (s : string) :
  xml_escape_attr (String c s) = escape_attr_char c +:+ xml_escape_attr s.
Proof. reflexivity. Qed.

Lemma escape_char_inv (c1 c2 : ascii) (x y : string) :
  escape_char c1 +:+ x = escape_char c2 +:+ y -> c1 = c2 /\ x = y.
Proof.
  unfold escape_char.
  destruct (Ascii.eqb_spec c1 "<") as [->|n1];
    [|destruct (Ascii.eqb_spec c1 ">") as [->|n2];
      [|destruct (Ascii.eqb_spec c1 "&") as [->|n3]]];
  destruct (Ascii.eqb_spec c2 "<") as [->|m1];
    try (destruct (Ascii.eqb_spec c2 ">") as [->|m2];
      [|destruct (Ascii.eqb_spec c2 "&") as [->|m3]]);
  cbn; intros H; inversion H; subst; auto; congruence.
Qed.

Lemma escape_attr_char_inv (c1 c2 : ascii) (x y : string) :
  escape_attr_char c1 +:+ x = escape_attr_char c2 +:+ y -> c1 = c2 /\ x = y.
Proof.
  unfold escape_attr_char, dq.
  destruct (Ascii.eqb_spec c1 "<") as [->|n1];
    [|destruct (Ascii.eqb_spec c1 ">") as [->|n2];
      [|destruct (Ascii.eqb_spec c1 "&") as [->|n3];
        [|destruct (Ascii.eqb_spec c1 "034") as [->|n4]]]];
  destruct (Ascii.eqb_spec c2 "<") as [->|m1];
    try (destruct (Ascii.eqb_spec c2 ">") as [->|m2];
      [|destruct (Ascii.eqb_spec c2 "&") as [->|m3];
        [|destruct (Ascii.eqb_spec c2 "034") as [->|m4]]]);
  cbn; intros H; inversion H; subst; auto; congruence.
Qed.

Lemma escape_char_nonempty (c : ascii) : exists a r, escape_char c = String a r.
Proof.
  unfold escape_char. destruct (Ascii.eqb c "<"); [eauto|].
  destruct (Ascii.eqb c ">"); [eauto|]. destruct (Ascii.eqb c "&"); eauto.
Qed.

Lemma escape_attr_char_nonempty (c : ascii) : exists a r, escape_attr_char c = String a r.
Proof.
  unfold escape_attr_char. destruct (Ascii.eqb c "<"); [eauto|].
  destruct (Ascii.eqb c ">"); [eauto|]. destruct (Ascii.eqb c "&"); [eauto|].
  destruct (Ascii.eqb c dq); eauto.
Qed.

(** [xml_escape] and [xml_escape_attr] lose nothing: two different
    strings always escape to two different strings, so the formatted
    text and attributes determine the original ones. *)
Theorem xml_escape_injective :
  (forall s1 s2, xml_escape s1 = xml_escape s2 -> s1 = s2) /\
  (forall s1 s2, xml_escape_attr s1 = xml_escape_attr s2 -> s1 = s2).
Proof.
  split.
  - induction s1 as [|c1 s1 IH]; intros [|c2 s2]; [reflexivity| | |].
    + rewrite xml_escape_cons. destruct (escape_char_nonempty c2) as (a & r & ->). discriminate.
    + rewrite xml_escape_cons. destruct (escape_char_nonempty c1) as (a & r & ->). discriminate.
    + rewrite !xml_escape_cons. intros H. apply escape_char_inv in H as [-> H].
      rewrite (IH s2 H). reflexivity.
  - induction s1 as [|c1 s1 IH]; intros [|c2 s2]; [reflexivity| | |].
    + rewrite xml_escape_attr_cons. destruct (escape_attr_char_nonempty c2) as (a & r & ->).
      discriminate.
    + rewrite xml_escape_attr_cons. destruct (escape_attr_char_nonempty c1) as (a & r & ->).
      discriminate.
    + rewrite !xml_escape_attr_cons. intros H. apply escape_attr_char_inv in H as [-> H].
      rewrite (IH s2 H). reflexivity.
Qed.

Lemma starts_with_refl (s : string) : starts_with s s = true.
Proof.
  induction s as [|c s IH]; [reflexivity|]. cbn. rewrite IH, (proj2 (Ascii.eqb_eq c c) eq_refl).
  reflexivity.
Qed.

Lemma substring0_length (s : string) (k : nat) :
  (k <= String.length s)%nat -> String.length (String.substring 0 k s) = k.
Proof.
  revert k. induction s as [|c s IH]; intros [|k] Hk; cbn in *; try reflexivity; try lia.
  rewrite IH by lia. reflexivity.
Qed.

Lemma substring0_prefix (s : string) (k : nat) : starts_with (String.substring 0 k s) s = true.
Proof.
  revert k. induction s as [|c s IH]; intros [|k]; try reflexivity.
  cbn. rewrite IH, (proj2 (Ascii.eqb_eq c c) eq_refl). reflexivity.
Qed.

Lemma back_to_boundary_spec (s : string) (fuel e : nat) :
  (e <= fuel)%nat ->
  let r := back_to_boundary s fuel e in
  (r <= e)%nat /\ is_char_boundary s r = true /\
  (forall j, (r < j <= e)%nat -> is_char_boundary s j = false).
Proof.
  revert e. induction fuel as [|f IH]; intros e He; cbv zeta.
  - assert (e = O) as -> by lia. cbn. split; [lia|split; [reflexivity|intros; lia]].
  - cbn [back_to_boundary].
    destruct (0 <? e)%nat eqn:E0; cbn [andb].
    + destruct (is_char_boundary s e) eqn:Eb; cbn [negb].
      * split; [lia|split; [exact Eb|intros; lia]].
      * destruct (IH (e - 1)%nat ltac:(lia)) as (H1 & H2 & H3).
        split; [lia|split; [exact H2|]].
        intros j Hj. destruct (Nat.eq_dec j e) as [->|Hne]; [exact Eb|apply H3; lia].
    + apply Nat.ltb_ge in E0. assert (e = O) as -> by lia.
      split; [lia|split; [reflexivity|intros; lia]].
Qed.

(** [truncate_safe s n] is a prefix of [s]; it is [s] itself when [s]
    has at most [n] bytes; otherwise it has at most [n] bytes, ends at a
    UTF-8 character boundary of [s], and is the longest such prefix: no
    position between its end and [n] is a character boundary. *)
Theorem truncate_safe_spec (s : string) (max_chars : nat) :
  let t := truncate_safe s max_chars in
  starts_with t s = true /\
  ((String.length s <= max_chars)%nat -> t = s) /\
  ((max_chars < String.length s)%nat ->
     (String.length t <= max_chars)%nat /\ is_char_boundary s (String.length t) = true /\
     forall j, (String.length t < j <= max_chars)%nat -> is_char_boundary s j = false).
Proof.
  cbv zeta. unfold truncate_safe.
  destruct (String.length s <=? max_chars)%nat eqn:E.
  - apply Nat.leb_le in E. split; [apply starts_with_refl|split; [reflexivity|lia]].
  - apply Nat.leb_gt in E.
    destruct (back_to_boundary_spec s max_chars max_chars (le_n _)) as (H1 & H2 & H3).
    split; [apply substring0_prefix|split; [lia|]].
    intros _. rewrite substring0_length by lia. auto.
Qed.

End EscapeFacts.

(* ------------------------------------------------------------------ *)
(** ** Properties of the archive *)

Module ArchiveFacts.
Import Str Message Engine Recent Observations.

Lemma formatted_size_cons (m : ChatMessage) (l : list ChatMessage) :
  formatted_size (m :: l) = (String.length (format m) + formatted_size l)%nat.
Proof. reflexivity. Qed.

Lemma take_budget_gen (B : nat) (rows : list ChatMessage) :
  forall total res, exists k,
    take_budget B total res rows = res ++ firstn k rows /\ (k <= length rows)%nat /\
    (res = [] -> rows <> [] -> (1 <= k)%nat) /\
    (res <> [] -> (1 <= k)%nat -> (total + formatted_size (firstn k rows) <= B)%nat) /\
    (res = [] -> (2 <= k)%nat -> (total + formatted_size (firstn k rows) <= B)%nat) /\
    ((k < length rows)%nat -> res ++ firstn k rows <> [] /\
                              (B < total + formatted_size (firstn (S k) rows))%nat).
Proof.
  induction rows as [|msg rows IH]; intros total res.
  - exists O. rewrite firstn_nil, app_nil_r. cbn [length].
    repeat split; intros; try lia; congruence.
  - cbn [take_budget]. remember (String.length (format msg)) as c eqn:Hc.
    destruct ((B <? total + c)%nat && negb (bool_decide (res = []))) eqn:Ebrk.
    + apply andb_true_iff in Ebrk as [E1 E2]. apply Nat.ltb_lt in E1.
      apply negb_true_iff, bool_decide_eq_false in E2.
      exists O. rewrite firstn_O, app_nil_r. cbn [firstn length].
      rewrite formatted_size_cons, <- Hc.
      repeat split; intros; try lia; try congruence.
    + destruct (IH (total + c)%nat (res ++ [msg])) as
        (k & Hk & Hlen & _ & Hc1 & _ & Hd).
      assert (Hne : res ++ [msg] <> []) by (destruct res; discriminate).
      exists (S k). rewrite Hk, <- app_assoc. cbn [app firstn length].
      rewrite formatted_size_cons, <- Hc.
      split; [reflexivity|]. split; [lia|]. split; [intros; lia|].
      split; [|split].
      * intros Hres _. apply andb_false_iff in Ebrk as [E1|E2].
        -- apply Nat.ltb_ge in E1. destruct k as [|k'].
           ++ rewrite firstn_O. change (formatted_size []) with 0%nat. lia.
           ++ specialize (Hc1 Hne ltac:(lia)). lia.
        -- apply negb_false_iff, bool_decide_eq_true in E2. contradiction.
      * intros _ Hk2. specialize (Hc1 Hne ltac:(lia)). lia.
      * intros Hlt. destruct (Hd ltac:(lia)) as [_ Hgt]. split; [destruct res; discriminate|].
        cbn [firstn]. rewrite formatted_size_cons, <- Hc. lia.
Qed.

(** [get_recent_by_tokens] returns, in chronological order, the [k] most
    recent archived messages (newest first by timestamp, then id), for
    the [k] that fits the budget of [4 * max_tokens] formatted bytes: at
    least one message whenever the archive has one, within the budget
    whenever more than one is returned, and the next older message would
    have exceeded it. *)
Theorem recent_by_tokens_budget (db : Archive) (max_tokens : nat) :
  let rows := recent_rows db in
  exists k, get_recent_by_tokens db max_tokens = rev (firstn k rows) /\
    (k <= length rows)%nat /\
    (rows <> [] -> (1 <= k)%nat) /\
    ((2 <= k)%nat -> (formatted_size (firstn k rows) <= max_tokens * 4)%nat) /\
    ((k < length rows)%nat -> (max_tokens * 4 < formatted_size (firstn (S k) rows))%nat).
Proof.
  cbv zeta. destruct (take_budget_gen (max_tokens * 4) (recent_rows db) 0 []) as
    (k & Hk & Hlen & H1 & _ & H2 & H3).
  exists k. unfold get_recent_by_tokens. rewrite Hk. cbn [app].
  split; [reflexivity|]. split; [exact Hlen|]. split; [exact (H1 eq_refl)|].
  split; [intros Hk2; specialize (H2 eq_refl Hk2); lia|].
  intros Hlt. destruct (H3 Hlt) as [_ H]. lia.
Qed.

(** Starting from any archive, adding a sequence of messages raises each
    user's [message_count] by the number of those messages the user
    sent; the user's [join_date] stays what it was, or is the timestamp of
    the user's first added message for a user not yet in [users]. *)
Theorem user_rows_count_messages (msgs : list ChatMessage) :
  forall (db : Archive) (uid : Z),
  let db' := fold_left db_add_message msgs db in
  user_count db' uid = user_count db uid + Z.of_nat (length (List.filter (fun m => m.(user_id) =? uid) msgs)) /\
  option_map ur_join_date (db'.(users_tbl) !! uid) =
    match db.(users_tbl) !! uid with
    | Some r => Some r.(ur_join_date)
    | None => option_map timestamp (find (fun m => m.(user_id) =? uid) msgs)
    end.
Proof.
  induction msgs as [|m msgs IH]; intros db uid; cbv zeta.
  - cbn. split; [lia|]. destruct (users_tbl db !! uid); reflexivity.
  - cbn [fold_left List.filter find]. destruct (IH (db_add_message db m) uid) as [H1 H2].
    cbv zeta in H1, H2. rewrite H1, H2. clear H1 H2.
    unfold user_count, db_add_message. cbn [users_tbl].
    destruct (Z.eqb_spec (user_id m) uid) as [<-|Hne].
    + rewrite lookup_insert_eq. cbn [length].
      destruct (users_tbl db !! user_id m) as [r|]; cbn; split; try reflexivity; lia.
    + rewrite lookup_insert_ne by congruence.
      split; reflexivity.
Qed.

End ArchiveFacts.

(* ------------------------------------------------------------------ *)
(** ** Properties of [Database::query] *)

Module QueryFacts.
Import Str Query Observations.

Lemma fetch_loop_ok (cols : list string) (rs : list Row) :
  forall c acc, (c <= MAX_ROWS)%nat ->
  fetch_loop cols (map Ok rs) c acc =
    (Ok (acc ++ map (fun r => join " | " (format_row cols r)) (firstn (MAX_ROWS - c) rs) ++
         (if (MAX_ROWS - c <? length rs)%nat then [TRUNCATED] else []),
         (c + Nat.min (length rs) (MAX_ROWS - c))%nat),
     repeat QFetchRow (Nat.min (length rs) (S MAX_ROWS - c))).
Proof.
  unfold MAX_ROWS. induction rs as [|r rs IH]; intros c acc Hc.
  - cbn [map fetch_loop length]. rewrite firstn_nil, Nat.min_0_l, Nat.add_0_r. cbn [map repeat]. replace (100 - c <? 0)%nat with false by (symmetry; apply Nat.ltb_ge; lia). rewrite !app_nil_r. reflexivity.
  - cbn [map fetch_loop]. unfold MAX_ROWS. destruct (100 <=? c)%nat eqn:E.
    + apply Nat.leb_le in E. assert (c = 100%nat) as -> by lia. cbn. rewrite Nat.min_0_r. reflexivity.
    + apply Nat.leb_gt in E. rewrite (IH (S c)) by lia.
      replace (100 - c)%nat with (S (100 - S c)) by lia.
      replace (S 100 - c)%nat with (S (S 100 - S c)) by lia.
      cbn [firstn map length repeat Nat.min].
      rewrite <- app_assoc. cbn [app].
      replace (S (100 - S c) <? S (length rs))%nat with (100 - S c <? length rs)%nat
        by (destruct (Nat.ltb_spec (100 - S c) (length rs));
            destruct (Nat.ltb_spec (S (100 - S c)) (S (length rs))); try reflexivity; lia).
      do 3 f_equal. lia.
Qed.

(** When every row is fetched without error, [Database::query] formats
    the first 100 rows only, adds the truncation line exactly when there
    are more, reports [min(rows, 100)] as the row count, and pulls at most
    101 rows from the cursor. *)
Theorem fetch_loop_row_cap (cols : list string) (rs : list Row) :
  fetch_loop cols (map Ok rs) 0 [] =
    (Ok (map (fun r => join " | " (format_row cols r)) (firstn MAX_ROWS rs) ++
         (if (MAX_ROWS <? length rs)%nat then [TRUNCATED] else []),
         Nat.min (length rs) MAX_ROWS),
     repeat QFetchRow (Nat.min (length rs) (S MAX_ROWS))).
Proof.
  rewrite fetch_loop_ok by (unfold MAX_ROWS; lia). rewrite Nat.sub_0_r. reflexivity.
Qed.

Lemma chars_count_app (a b : string) : chars_count (a +:+ b) = (chars_count a + chars_count b)%nat.
Proof.
  induction a as [|c a IH]; [reflexivity|].
  change (String c a +:+ b) with (String c (a +:+ b)). cbn [chars_count]. rewrite IH.
  destruct ((128 <=? nat_of_ascii c)%nat && (nat_of_ascii c <? 192)%nat); reflexivity.
Qed.

Lemma take_chars_count (n : nat) (s : string) :
  chars_count (take_chars n s) = Nat.min n (chars_count s).
Proof.
  revert n. induction s as [|c s IH]; intros n; [cbn; lia|].
  cbn [take_chars chars_count]. unfold is_continuation.
  destruct ((128 <=? nat_of_ascii c)%nat && (nat_of_ascii c <? 192)%nat) eqn:E.
  - cbn [chars_count]. rewrite E. apply IH.
  - destruct n as [|k]; [reflexivity|]. cbn [chars_count]. rewrite E, IH. lia.
Qed.

Lemma take_chars_prefix (n : nat) (s : string) : starts_with (take_chars n s) s = true.
Proof.
  revert n. induction s as [|c s IH]; intros n; [reflexivity|].
  cbn [take_chars]. destruct (is_continuation c).
  - cbn. rewrite (proj2 (Ascii.eqb_eq c c) eq_refl). apply IH.
  - destruct n; [reflexivity|]. cbn. rewrite (proj2 (Ascii.eqb_eq c c) eq_refl). apply IH.
Qed.

(** A text cell of a query result is shown whole when it has at most 100
    characters; a longer one is cut to its first 100 characters (a
    prefix, never splitting a UTF-8 character) followed by "...", 103
    characters in all. *)
Theorem text_value_shown (s : string) :
  ((chars_count s <= 100)%nat -> format_value (VText s) = s) /\
  ((100 < chars_count s)%nat ->
     format_value (VText s) = take_chars 100 s +:+ "..." /\
     chars_count (format_value (VText s)) = 103%nat /\
     starts_with (take_chars 100 s) s = true).
Proof.
  cbn [format_value]. split.
  - intros H. destruct (Nat.ltb_spec 100 (chars_count s)); [lia|reflexivity].
  - intros H. destruct (Nat.ltb_spec 100 (chars_count s)) as [_|]; [|lia].
    split; [reflexivity|]. split; [|apply take_chars_prefix].
    rewrite chars_count_app, take_chars_count. change (chars_count "...") with 3%nat. lia.
Qed.

End QueryFacts.

(* ------------------------------------------------------------------ *)
(** ** Properties of the tool execution of [process_messages] *)

Module ProcessFacts.
Import Process.

(** Executing the tool calls of one response runs the non-[Done] calls
    exactly once each, in the order given, returns one result per call,
    and sends nothing to the reasoner meanwhile. *)
Theorem execute_calls_in_order (ToolSt : Type) (env : ProcEnv (ToolSt := ToolSt))
    (tcs : list ToolCallWithId) :
  forall st,
  let '(r, st') := execute_calls env tcs st in
  (exists rs, r = Ok rs /\ length rs = length tcs) /\ st'.(script) = st.(script) /\
  st'.(trace) = st.(trace) ++ map EvExec (List.filter (fun tc => negb (is_done tc)) tcs).
Proof.
  induction tcs as [|tc tcs IH]; intros st.
  - cbn. split; [eauto|]. rewrite app_nil_r. auto.
  - cbn [execute_calls]. unfold bind at 1.
    destruct (is_done tc) eqn:Ed.
    + cbn [ret]. unfold bind. specialize (IH st).
      destruct (execute_calls env tcs st) as [[rs|e] st1].
      * destruct IH as [[rs' [[= <-] Hl]] [Hs Ht]]. cbn. rewrite Ed. cbn.
        split; [eexists; split; [reflexivity|cbn; rewrite Hl; reflexivity]|]. auto.
      * destruct IH as [[rs' [? _]] _]. discriminate.
    + unfold exec at 1. destruct (execute_tool env (tools st) tc) as [res ts] eqn:Ex.
      unfold bind.
      pose proof (IH {| script := script st; trace := trace st ++ [EvExec tc]; tools := ts |}) as IH'.
      destruct (execute_calls env tcs _) as [[rs|e] st1].
      * destruct IH' as [[rs' [[= <-] Hl]] [Hs Ht]]. cbn [ret].
        split; [eexists; split; [reflexivity|cbn; rewrite Hl; reflexivity]|].
        split; [exact Hs|]. rewrite Ht. cbn. rewrite Ed. cbn.
        rewrite <- app_assoc. reflexivity.
      * destruct IH' as [[rs' [? _]] _]. discriminate.
Qed.

End ProcessFacts.

(* ------------------------------------------------------------------ *)
(** ** Properties of the reminder queries *)

Module ReminderQueryFacts.
Import Reminders ReminderQueries Observations.

Lemma insert_by_trigger_perm (r : Reminder) (l : list Reminder) :
  Permutation (insert_by_trigger r l) (r :: l).
Proof.
  induction l as [|x l IH]; cbn; [reflexivity|].
  destruct (trigger_at r <=? trigger_at x); [reflexivity|].
  rewrite IH. apply perm_swap.
Qed.

Lemma insert_by_trigger_sorted (r : Reminder) (l : list Reminder) :
  Sorted trig_le l -> Sorted trig_le (insert_by_trigger r l).
Proof.
  induction l as [|x l IH]; intros H; cbn.
  - constructor; constructor.
  - destruct (Z.leb_spec (trigger_at r) (trigger_at x)) as [Hle|Hgt].
    + constructor; [exact H|]. constructor. exact Hle.
    + inversion H as [|? ? Hl Hx]; subst. constructor; [apply IH; exact Hl|].
      destruct l as [|y l]; cbn.
      * constructor. unfold trig_le. lia.
      * destruct (trigger_at r <=? trigger_at y); constructor; [unfold trig_le; lia|].
        inversion Hx; assumption.
Qed.

Lemma sort_by_trigger_spec (l : list Reminder) :
  Sorted trig_le (fold_right insert_by_trigger [] l) /\
  Permutation (fold_right insert_by_trigger [] l) l.
Proof.
  induction l as [|x l [IHs IHp]]; cbn; [split; constructor|].
  split; [apply insert_by_trigger_sorted, IHs|].
  rewrite insert_by_trigger_perm, IHp. reflexivity.
Qed.

Lemma in_rows (m : gmap Z Reminder) (r : Reminder) :
  In r (map snd (map_to_list m)) <-> exists k, m !! k = Some r.
Proof.
  rewrite in_map_iff. split.
  - intros [[k v] [<- Hin]]. exists k. apply elem_of_map_to_list, list_elem_of_In, Hin.
  - intros [k Hk]. exists (k, r). split; [reflexivity|].
    apply list_elem_of_In, elem_of_map_to_list, Hk.
Qed.

Lemma in_filter_bool (p : Reminder -> bool) (l : list Reminder) (r : Reminder) :
  In r (filter p l) <-> p r = true /\ In r l.
Proof.
  rewrite <- !list_elem_of_In, list_elem_of_filter. split; intros [H1 H2]; split; auto;
  destruct (p r); first [reflexivity | contradiction | exact I | discriminate].
Qed.

(** [list_reminders] returns the active reminders (of the given chat,
    when one is given) ordered by their trigger time, and nothing else. *)
Theorem list_reminders_spec (chat_filter : option Z) (st : SchedState) :
  Sorted trig_le (list_reminders chat_filter st) /\
  forall r, In r (list_reminders chat_filter st) <->
    exists k, st.(reminders_tbl) !! k = Some r /\ r.(active) = true /\
      match chat_filter with Some cid => r.(chat_id) = cid | None => True end.
Proof.
  unfold list_reminders.
  destruct (sort_by_trigger_spec
    (filter (fun r => r.(active) &&
                      match chat_filter with Some cid => r.(chat_id) =? cid | None => true end)
            (map snd (map_to_list st.(reminders_tbl))))) as [Hs Hp].
  split; [exact Hs|]. intros r.
  rewrite Hp, in_filter_bool, in_rows, andb_true_iff. split.
  - intros [[Ha Hc] [k Hk]]. exists k. split; [exact Hk|]. split; [exact Ha|].
    destruct chat_filter; [apply Z.eqb_eq, Hc | exact I].
  - intros (k & Hk & Ha & Hc). split; [split; [exact Ha|] | exists k; exact Hk].
    destruct chat_filter; [apply Z.eqb_eq, Hc | reflexivity].
Qed.

(** [get_due_reminders] reads the clock once and returns the active
    reminders whose trigger time is not after that reading, ordered by
    trigger time; it changes nothing else. *)
Theorem due_reminders_spec (st : SchedState) :
  let '(due, st1) := get_due_reminders st in
  st1.(reminders_tbl) = st.(reminders_tbl) /\ st1.(sent) = st.(sent) /\
  st1.(ticks) = S st.(ticks) /\
  Sorted trig_le due /\
  forall r, In r due <->
    exists k, st.(reminders_tbl) !! k = Some r /\ r.(active) = true /\
      (r.(trigger_at) <= st.(clock) st.(ticks))%Z.
Proof.
  unfold get_due_reminders, utc_now. cbn [reminders_tbl sent ticks clock].
  destruct (sort_by_trigger_spec
    (filter (fun r => r.(active) && (trigger_at r <=? clock st (ticks st)))
            (map snd (map_to_list st.(reminders_tbl))))) as [Hs Hp].
  split; [reflexivity|]. split; [reflexivity|]. split; [reflexivity|].
  split; [exact Hs|]. intros r.
  rewrite Hp, in_filter_bool, in_rows, andb_true_iff, Z.leb_le. split.
  - intros [[Ha Hc] [k Hk]]. exists k. auto.
  - intros (k & Hk & Ha & Hc). split; [split; assumption | exists k; exact Hk].
Qed.

(** [cancel_reminder] answers whether an active reminder with that id
    existed; it deactivates exactly that row, keeping its other columns,
    leaves every other row, the clock and the sent messages alone, and a
    second cancel of the same id answers [false]. *)
Theorem cancel_reminder_spec (rid : Z) (st : SchedState) :
  let '(res, st') := cancel_reminder rid st in
  res = Ok (match st.(reminders_tbl) !! rid with Some r => r.(active) | None => false end) /\
  (forall k, k <> rid -> st'.(reminders_tbl) !! k = st.(reminders_tbl) !! k) /\
  option_map active (st'.(reminders_tbl) !! rid) =
    option_map (fun _ => false) (st.(reminders_tbl) !! rid) /\
  option_map reminder_fields (st'.(reminders_tbl) !! rid) =
    option_map reminder_fields (st.(reminders_tbl) !! rid) /\
  st'.(clock) = st.(clock) /\ st'.(ticks) = st.(ticks) /\ st'.(sent) = st.(sent) /\
  fst (cancel_reminder rid st') = Ok false.
Proof.
  unfold cancel_reminder. destruct (reminders_tbl st !! rid) as [r|] eqn:Hr.
  - destruct (active r) eqn:Ha.
    + cbn [with_table reminders_tbl clock ticks sent fst]. rewrite lookup_insert_eq.
      split; [reflexivity|]. split; [intros k Hk; apply lookup_insert_ne; congruence|].
      repeat split.
    + cbn [fst]. rewrite Hr, Ha. cbn. rewrite Ha. repeat split; reflexivity.
  - cbn [fst]. rewrite Hr. repeat split; reflexivity.
Qed.

End ReminderQueryFacts.

(* ------------------------------------------------------------------ *)
(** ** Properties of [check_reminders] *)

Module ReminderCheckFacts.
Import Reminders Observations.

Lemma due_helper (st : SchedState) :
  let '(due, st1) := get_due_reminders st in
  st1.(reminders_tbl) = st.(reminders_tbl) /\ st1.(sent) = st.(sent) /\
  forall r, In r due <->
    exists k, st.(reminders_tbl) !! k = Some r /\ r.(active) = true /\
      (r.(trigger_at) <= st.(clock) st.(ticks))%Z.
Proof.
  unfold get_due_reminders, utc_now. cbn [reminders_tbl sent ticks clock].
  destruct (ReminderQueryFacts.sort_by_trigger_spec
    (filter (fun r => r.(active) && (trigger_at r <=? clock st (ticks st)))
            (map snd (map_to_list st.(reminders_tbl))))) as [_ Hp].
  split; [reflexivity|]. split; [reflexivity|]. intros r.
  rewrite Hp, ReminderQueryFacts.in_filter_bool, ReminderQueryFacts.in_rows,
    andb_true_iff, Z.leb_le. split.
  - intros [[Ha Hc] [k Hk]]. exists k. auto.
  - intros (k & Hk & Ha & Hc). split; [split; assumption | exists k; exact Hk].
Qed.

Lemma fire_sent (env : SchedEnv) (r : Reminder) (s : SchedState) :
  (fire_reminder env r s).(sent) = s.(sent) ++ [(r.(chat_id), r.(message))].
Proof.
  unfold fire_reminder, mark_reminder_completed, reschedule_reminder, utc_now, with_table.
  destruct (repeat_cron r); [destruct (next_cron_trigger env _ _)|]; reflexivity.
Qed.

Lemma fire_other (env : SchedEnv) (r : Reminder) (s : SchedState) (k : Z) :
  k <> r.(id) -> (fire_reminder env r s).(reminders_tbl) !! k = s.(reminders_tbl) !! k.
Proof.
  intros Hk.
  unfold fire_reminder, mark_reminder_completed, reschedule_reminder, utc_now, with_table.
  destruct (repeat_cron r); [destruct (next_cron_trigger env _ _)|];
    cbn [reminders_tbl]; apply lookup_alter_ne; congruence.
Qed.

Lemma fold_fire_other (env : SchedEnv) (k : Z) (due : list Reminder) :
  (forall d, In d due -> d.(id) <> k) ->
  forall s, (fold_left (fun s r => fire_reminder env r s) due s).(reminders_tbl) !! k =
            s.(reminders_tbl) !! k.
Proof.
  induction due as [|d due IH]; intros Hd s; [reflexivity|]. cbn [fold_left].
  rewrite IH by (intros; apply Hd; right; assumption).
  apply fire_other. intros ->. apply (Hd d); [left|]; reflexivity.
Qed.

Lemma fire_one_shot (env : SchedEnv) (r : Reminder) (s : SchedState) :
  r.(repeat_cron) = None ->
  (s.(reminders_tbl) !! r.(id) = Some r \/
   exists t, s.(reminders_tbl) !! r.(id) = Some (completed r t)) ->
  exists t, (fire_reminder env r s).(reminders_tbl) !! r.(id) = Some (completed r t).
Proof.
  intros Hc Hs. unfold fire_reminder. rewrite Hc.
  unfold mark_reminder_completed, utc_now, with_table. cbn [reminders_tbl].
  rewrite lookup_alter, decide_True by reflexivity. eexists.
  destruct Hs as [-> | [t ->]]; reflexivity.
Qed.

Lemma fold_fire_stays_completed (env : SchedEnv) (r : Reminder) (due : list Reminder) :
  r.(repeat_cron) = None ->
  (forall d, In d due -> d.(id) = r.(id) -> d = r) ->
  forall s, (exists t, s.(reminders_tbl) !! r.(id) = Some (completed r t)) ->
  exists t, (fold_left (fun s r => fire_reminder env r s) due s).(reminders_tbl) !! r.(id) =
            Some (completed r t).
Proof.
  intros Hc. induction due as [|d due IH]; intros Hd s Hs; [exact Hs|]. cbn [fold_left].
  apply IH; [intros; apply Hd; [right|]; assumption|].
  destruct (Z.eq_dec d.(id) r.(id)) as [Heq|Hne].
  - assert (d = r) as -> by (apply Hd; [left|]; auto).
    apply fire_one_shot; [exact Hc | right; exact Hs].
  - rewrite fire_other by congruence. exact Hs.
Qed.

Lemma fold_fire_one_shot (env : SchedEnv) (r : Reminder) (due : list Reminder) :
  r.(repeat_cron) = None ->
  (forall d, In d due -> d.(id) = r.(id) -> d = r) ->
  In r due ->
  forall s, s.(reminders_tbl) !! r.(id) = Some r ->
  exists t, (fold_left (fun s r => fire_reminder env r s) due s).(reminders_tbl) !! r.(id) =
            Some (completed r t).
Proof.
  intros Hc. induction due as [|d due IH]; intros Hd Hin s Hs; [destruct Hin|]. cbn [fold_left].
  assert (Hd' : forall d', In d' due -> d'.(id) = r.(id) -> d' = r)
    by (intros; apply Hd; [right|]; assumption).
  destruct (Z.eq_dec d.(id) r.(id)) as [Heq|Hne].
  - assert (d = r) as -> by (apply Hd; [left|]; auto).
    apply fold_fire_stays_completed; [exact Hc | exact Hd' |].
    apply fire_one_shot; [exact Hc | left; exact Hs].
  - destruct Hin as [->|Hin]; [congruence|].
    apply IH; [exact Hd' | exact Hin |]. rewrite fire_other by congruence. exact Hs.
Qed.

(** [check_reminders] sends, for each due reminder and in trigger order,
    exactly one message, its text to its chat, whether or not the
    reminder is rescheduled afterwards. *)
Theorem check_reminders_sends (env : SchedEnv) (st : SchedState) :
  (check_reminders env st).(sent) =
    st.(sent) ++ map (fun r => (r.(chat_id), r.(message))) (fst (get_due_reminders st)).
Proof.
  unfold check_reminders. pose proof (due_helper st) as H.
  destruct (get_due_reminders st) as [due st1]. destruct H as [_ [Hs _]]. cbn [fst].
  rewrite <- Hs. clear Hs. revert st1.
  induction due as [|d due IH]; intros st1; cbn [fold_left map]; [rewrite app_nil_r; reflexivity|].
  rewrite IH, fire_sent, <- app_assoc. reflexivity.
Qed.

(** When every row is stored under its own id, a reminder that is not
    due (inactive, or triggering after the clock reading) is left exactly
    as it was by [check_reminders]. *)
Theorem check_reminders_keeps_not_due (env : SchedEnv) (st : SchedState) (k : Z) (r : Reminder)
    (Hwf : ids_are_keys st.(reminders_tbl))
    (Hk : st.(reminders_tbl) !! k = Some r)
    (Hnd : r.(active) = false \/ (st.(clock) st.(ticks) < r.(trigger_at))%Z) :
  (check_reminders env st).(reminders_tbl) !! k = Some r.
Proof.
  unfold check_reminders. pose proof (due_helper st) as H.
  destruct (get_due_reminders st) as [due st1]. destruct H as [Ht [_ Hin]].
  rewrite fold_fire_other, Ht; [exact Hk|].
  intros d Hd Hid. apply Hin in Hd as (k' & Hk' & Ha & Htr).
  pose proof (Hwf k' d Hk') as Hid'. cbn in Hid'. subst k k'.
  rewrite Hk in Hk'. injection Hk' as ->. destruct Hnd; [congruence | lia].
Qed.

(** When every row is stored under its own id, each due one-shot
    reminder (without [repeat_cron]) ends inactive after
    [check_reminders], with [last_triggered_at] set and its other columns
    unchanged. *)
Theorem check_reminders_completes_one_shot (env : SchedEnv) (st : SchedState) (k : Z)
    (r : Reminder)
    (Hwf : ids_are_keys st.(reminders_tbl))
    (Hk : st.(reminders_tbl) !! k = Some r)
    (Ha : r.(active) = true)
    (Hdue : (r.(trigger_at) <= st.(clock) st.(ticks))%Z)
    (Hc : r.(repeat_cron) = None) :
  exists t, (check_reminders env st).(reminders_tbl) !! k = Some (completed r t).
Proof.
  unfold check_reminders. pose proof (due_helper st) as H.
  destruct (get_due_reminders st) as [due st1]. destruct H as [Ht [_ Hin]].
  pose proof (Hwf k r Hk) as Hid. cbn in Hid. subst k.
  apply fold_fire_one_shot; [exact Hc | | | rewrite Ht; exact Hk].
  - intros d Hd Hid. apply Hin in Hd as (k' & Hk' & _ & _).
    pose proof (Hwf k' d Hk') as Hid'. cbn in Hid'. subst k'. rewrite Hid in Hk'.
    congruence.
  - apply Hin. exists r.(id). auto.
Qed.

End ReminderCheckFacts.

(* ------------------------------------------------------------------ *)
(** ** Properties of the [send_message] tool *)

Module SendFacts.
Import Str Message Engine Tools Observations.

(** [execute_send_message] makes exactly one Telegram call, a send of the
    text with the validated reply target.  When Telegram refuses, the
    error is returned and the context and archive are untouched.  When
    it answers with a message id, that id now leads, in the context
    buffer and in the archive, to one bot message of the target chat
    with the sent text, replying to the validated target when that
    message is in the context, and the bot's [message_count] grows by
    one. *)
Theorem send_message_records (cfg : ChatbotConfig) (tg : Transport) (now_hm : string)
    (chat_id : Z) (text : string) (reply_to_message_id : option Z) (st : ToolState) :
  let vr := validate_reply st.(t_context) chat_id reply_to_message_id in
  let '(r, st') := execute_send_message cfg tg now_hm chat_id text reply_to_message_id st in
  st'.(api_calls) = st.(api_calls) ++ [ApiSend chat_id text vr] /\
  match tg (ApiSend chat_id text vr) with
  | Err e => r = Err e /\ st'.(t_context) = st.(t_context) /\ st'.(t_database) = st.(t_database)
  | Ok msg_id =>
      r = Ok None /\
      user_count st'.(t_database) cfg.(bot_user_id) =
        user_count st.(t_database) cfg.(bot_user_id) + 1 /\
      exists m, cb_get_message st'.(t_context) msg_id = Some m /\
        st'.(t_database).(messages_tbl) !! msg_id = Some m /\
        m.(Message.chat_id) = chat_id /\ m.(Message.user_id) = cfg.(bot_user_id) /\
        m.(Message.text) = text /\
        option_map reply_message_id m.(reply_to) =
          match vr with
          | Some rid => option_map (fun _ => rid) (cb_get_message st.(t_context) rid)
          | None => None
          end
  end.
Proof.
  cbv zeta. unfold execute_send_message, call. cbn [t_context t_database api_calls].
  destruct (tg _) as [msg_id|e]; cbn [t_context t_database api_calls].
  - split; [reflexivity|]. split; [reflexivity|]. split.
    + unfold user_count, db_add_message. cbn [users_tbl]. rewrite lookup_insert_eq.
      destruct (users_tbl (t_database st) !! _); cbn; lia.
    + eexists. split; [|split; [|split; [|split; [|split]]]].
      * unfold cb_get_message, cb_add_message. cbn [cb_index cb_messages Message.message_id].
        rewrite lookup_insert_eq, lookup_app_r by lia. rewrite Nat.sub_diag. reflexivity.
      * unfold db_add_message. cbn [messages_tbl Message.message_id].
        apply lookup_insert_eq.
      * reflexivity.
      * reflexivity.
      * reflexivity.
      * cbn [reply_to]. destruct (validate_reply _ _ _) as [rid|]; [|reflexivity].
        unfold cb_get_message. destruct (cb_index (t_context st) !! rid) as [i|]; [|reflexivity].
        destruct (cb_messages (t_context st) !! i); reflexivity.
  - split; [reflexivity|]. repeat split.
Qed.

(** [execute_mute_user] mutes for the requested duration clamped to
    1..1440 minutes (unchanged when already in range).  When the mute
    call fails its error is returned and nothing else is called; when it
    succeeds the result is [Ok None], whatever happens to the single
    notification sent to the owner (only when one is configured, with no
    reply target).  Context and archive are never touched. *)
Theorem mute_user_clamped (cfg : ChatbotConfig) (tg : Transport) (chat_id user_id d : Z)
    (st : ToolState) :
  let dur := clamp d 1 1440 in
  let '(r, st') := execute_mute_user cfg tg chat_id user_id d st in
  (1 <= dur <= 1440) /\ (1 <= d <= 1440 -> dur = d) /\
  st'.(t_context) = st.(t_context) /\ st'.(t_database) = st.(t_database) /\
  match tg (ApiMute chat_id user_id dur) with
  | Err e => r = Err e /\ st'.(api_calls) = st.(api_calls) ++ [ApiMute chat_id user_id dur]
  | Ok _ =>
      r = Ok None /\
      match cfg.(owner) with
      | Some o => exists note, st'.(api_calls) =
                    st.(api_calls) ++ [ApiMute chat_id user_id dur; ApiSend o note None]
      | None => st'.(api_calls) = st.(api_calls) ++ [ApiMute chat_id user_id dur]
      end
  end.
Proof.
  cbv zeta. unfold execute_mute_user, call. cbn [t_context t_database api_calls].
  assert (Hc : 1 <= clamp d 1 1440 <= 1440 /\ (1 <= d <= 1440 -> clamp d 1 1440 = d)).
  { unfold clamp. destruct (Z.ltb_spec d 1); [split; lia|].
    destruct (Z.ltb_spec 1440 d); split; lia. }
  destruct Hc as [Hc1 Hc2].
  destruct (tg (ApiMute chat_id user_id (clamp d 1 1440))) as [z|e].
  - destruct (owner cfg) as [o|]; cbn [snd t_context t_database api_calls].
    + split; [exact Hc1|]. split; [exact Hc2|]. split; [reflexivity|]. split; [reflexivity|].
      split; [reflexivity|]. eexists. rewrite <- app_assoc. reflexivity.
    + split; [exact Hc1|]. split; [exact Hc2|]. repeat split.
  - split; [exact Hc1|]. split; [exact Hc2|]. repeat split.
Qed.

End SendFacts.

(* ------------------------------------------------------------------ *)
(** ** Round trips of the memory tools *)

Module MemoryFacts.
Import Str Query Memory.

Lemma path_exists_create (fs : FS) (p q : string) :
  path_exists fs q = true -> path_exists (create_dir_all fs p) q = true.
Proof.
  unfold path_exists, create_dir_all, with_dirs. cbn [fs_dirs fs_files].
  rewrite !orb_true_iff, !bool_decide_eq_true. intros [H|H]; [left; set_solver | right; exact H].
Qed.

Lemma path_exists_create_self (fs : FS) (p : string) :
  path_exists (create_dir_all fs p) p = true.
Proof.
  unfold path_exists, create_dir_all, with_dirs. cbn [fs_dirs].
  apply orb_true_iff. left. apply bool_decide_eq_true. set_solver.
Qed.

Lemma canonicalize_exists (fs : FS) (q c : string) :
  canonicalize fs q = Ok c -> path_exists fs q = true /\ c = fs.(fs_resolve) q.
Proof.
  unfold canonicalize. destruct (path_exists fs q); [intros [= <-]; auto | discriminate].
Qed.

Lemma canonicalize_of_exists (fs : FS) (q : string) :
  path_exists fs q = true -> canonicalize fs q = Ok (fs.(fs_resolve) q).
Proof. unfold canonicalize. intros ->. reflexivity. Qed.

(** what a successful [resolve_memory_path] establishes *)
Lemma resolve_ok_facts (dd p fp : string) (fs fs2 : FS) :
  resolve_memory_path (Some dd) p fs = (Ok fp, fs2) ->
  let md := path_join dd "memories" in
  contains ".." p = false /\
  (starts_with "/" p || starts_with (String backslash EmptyString) p) = false /\
  String.eqb p EmptyString = false /\
  fp = path_join md p /\
  exists par, parent fp = Some par /\
    path_exists fs2 par = true /\ path_exists fs2 md = true /\
    fs2.(fs_resolve) = fs.(fs_resolve) /\ fs2.(fs_files) = fs.(fs_files) /\
    path_starts_with (fs.(fs_resolve) par) (fs.(fs_resolve) md) = true.
Proof.
  cbv zeta. unfold resolve_memory_path.
  destruct (contains ".." p) eqn:E1; [discriminate|].
  destruct (starts_with "/" p || starts_with (String backslash EmptyString) p) eqn:E2;
    [discriminate|].
  destruct (String.eqb p EmptyString) eqn:E3; [discriminate|].
  destruct (parent (path_join (path_join dd "memories") p)) as [par|] eqn:Ep; [|discriminate].
  set (fs1 := if negb (path_exists fs par) then create_dir_all fs par else fs).
  assert (R1 : fs1.(fs_resolve) = fs.(fs_resolve))
    by (unfold fs1; destruct (negb _); reflexivity).
  assert (F1 : fs1.(fs_files) = fs.(fs_files))
    by (unfold fs1; destruct (negb _); reflexivity).
  destruct (canonicalize fs1 par) as [cp|e] eqn:Ec; [|discriminate].
  apply canonicalize_exists in Ec as [Hpar ->].
  destruct (canonicalize fs1 (path_join dd "memories")) as [cm|e] eqn:Em.
  - apply canonicalize_exists in Em as [Hmd ->].
    destruct (negb (path_starts_with _ _)) eqn:Ec; [discriminate|].
    intros [= <- <-]. do 4 (split; [reflexivity|]).
    exists par. split; [exact Ep|]. split; [exact Hpar|]. split; [exact Hmd|].
    split; [exact R1|]. split; [exact F1|]. rewrite <- R1. apply negb_false_iff, Ec.
  - rewrite canonicalize_of_exists by apply path_exists_create_self.
    destruct (negb (path_starts_with _ _)) eqn:Ec; [discriminate|].
    intros [= <- <-]. do 4 (split; [reflexivity|]).
    exists par. split; [exact Ep|].
    split; [apply path_exists_create, Hpar|]. split; [apply path_exists_create_self|].
    split; [exact R1|]. split; [exact F1|].
    apply negb_false_iff in Ec. rewrite <- R1. exact Ec.
Qed.

(** [resolve_memory_path] succeeds again, changing nothing, on any file
    system where everything that existed after the first resolution
    still exists, with the same resolution of paths. *)
Lemma resolve_again (dd p fp : string) (fs fs2 fs' : FS) :
  resolve_memory_path (Some dd) p fs = (Ok fp, fs2) ->
  (forall par, parent fp = Some par -> path_exists fs2 par = true -> path_exists fs' par = true) ->
  (path_exists fs2 (path_join dd "memories") = true ->
   path_exists fs' (path_join dd "memories") = true) ->
  fs'.(fs_resolve) = fs2.(fs_resolve) ->
  resolve_memory_path (Some dd) p fs' = (Ok fp, fs').
Proof.
  intros H Hp Hm Hr.
  destruct (resolve_ok_facts dd p fp fs fs2 H) as
    (E1 & E2 & E3 & Efp & par & Ep & Hpar & Hmd & R2 & _ & Hst).
  rewrite R2 in Hr.
  unfold resolve_memory_path. rewrite E1, E2, E3. cbn [negb].
  rewrite <- Efp, Ep. rewrite (Hp par Ep Hpar). cbn [negb].
  rewrite canonicalize_of_exists by exact (Hp par Ep Hpar).
  rewrite canonicalize_of_exists by exact (Hm Hmd).
  rewrite Hr, Hst. reflexivity.
Qed.

Lemma write_file_ok (fs fs' : FS) (p c : string) (u : unit) :
  write_file fs p c = (Ok u, fs') ->
  is_dir fs p = false /\ (exists d, parent p = Some d /\ is_dir fs d = true) /\
  fs' = with_files fs (<[p := c]> fs.(fs_files)).
Proof.
  unfold write_file. destruct (is_dir fs p) eqn:Ed; [discriminate|].
  destruct (parent p) as [d|] eqn:Ep; [|discriminate].
  destruct (is_dir fs d) eqn:Ed'; [|discriminate].
  intros [= _ <-]. split; [reflexivity|]. split; [exists d; auto | reflexivity].
Qed.

Lemma path_exists_insert (fs : FS) (k v q : string) :
  path_exists fs q = true -> path_exists (with_files fs (<[k := v]> fs.(fs_files))) q = true.
Proof.
  unfold path_exists, with_files. cbn [fs_dirs fs_files].
  rewrite !orb_true_iff, !bool_decide_eq_true. intros [H|H]; [left; exact H | right].
  destruct (String.eq_dec k q) as [->|Hne]; [rewrite lookup_insert_eq; eauto|].
  rewrite lookup_insert_ne by exact Hne. exact H.
Qed.

(** After [create_memory] succeeds, [read_memory] of the same path
    returns the content just written, numbered line by line, and records
    the path as read; a second [create_memory] of the same path fails
    with "File already exists" and changes nothing. *)
Theorem create_then_read (dd p content : string) (fs fs1 : FS) (files_read : FilesRead)
    (H : execute_create_memory (Some dd) p content fs = (Ok None, fs1)) :
  execute_read_memory (Some dd) p files_read fs1 =
    (Ok (Some (join (String "010" EmptyString) (number_lines 1 (lines content)))),
     {[ p ]} ∪ files_read, fs1) /\
  forall content', execute_create_memory (Some dd) p content' fs1 =
    (Err ("File already exists: " +:+ p +:+ ". Use edit_memory to modify."), fs1).
Proof.
  unfold execute_create_memory in H.
  destruct (resolve_memory_path (Some dd) p fs) as [[fp|e] fs2] eqn:R; [|discriminate].
  destruct (path_exists fs2 fp) eqn:Ex; [discriminate|].
  destruct (write_file fs2 fp content) as [[u|e] fs3] eqn:W; [|discriminate].
  injection H as <-. apply write_file_ok in W as (_ & _ & ->).
  assert (R' : resolve_memory_path (Some dd) p (with_files fs2 (<[fp:=content]> (fs_files fs2))) =
               (Ok fp, with_files fs2 (<[fp:=content]> (fs_files fs2)))).
  { apply (resolve_again dd p fp fs fs2); [exact R | intros par _; apply path_exists_insert
                                          | apply path_exists_insert | reflexivity]. }
  assert (Hfp : path_exists (with_files fs2 (<[fp:=content]> (fs_files fs2))) fp = true).
  { unfold path_exists, with_files. cbn [fs_files]. rewrite lookup_insert_eq.
    apply orb_true_iff. right. apply bool_decide_eq_true. eauto. }
  split.
  - unfold execute_read_memory. rewrite R', Hfp. cbn [negb].
    unfold read_to_string, with_files at 1. cbn [fs_files]. rewrite lookup_insert_eq.
    reflexivity.
  - intros content'. unfold execute_create_memory. rewrite R', Hfp. reflexivity.
Qed.

Lemma strip_rev_length (l : list ascii) :
  (length (strip_trailing_slashes_rev l) <= length l)%nat.
Proof.
  induction l as [|c l IH]; cbn; [lia|]. destruct (Ascii.eqb c slash); cbn; lia.
Qed.

Lemma length_string_of_list (l : list ascii) : String.length (string_of_list_ascii l) = length l.
Proof. induction l as [|c l IH]; cbn; congruence. Qed.

Lemma length_list_of_string (s : string) : length (list_ascii_of_string s) = String.length s.
Proof. induction s as [|c s IH]; cbn; congruence. Qed.

Lemma strip_length (s : string) :
  (String.length (strip_trailing_slashes s) <= String.length s)%nat.
Proof.
  unfold strip_trailing_slashes. rewrite length_string_of_list, length_rev.
  rewrite <- length_list_of_string, <- (length_rev (list_ascii_of_string s)).
  apply strip_rev_length.
Qed.

Lemma last_slash_bound (s : string) :
  forall k acc i, last_slash_aux s k acc = Some i ->
  acc = Some i \/ (k <= i < k + String.length s)%nat.
Proof.
  induction s as [|c s IH]; intros k acc i H; cbn in H; [left; exact H|].
  destruct (IH _ _ _ H) as [Ha|Hb]; [|right; cbn; lia].
  destruct (Ascii.eqb c slash); [injection Ha as <-; right; cbn; lia | left; exact Ha].
Qed.

(** a path is never its own parent *)
Lemma parent_ne (p q : string) : parent p = Some q -> q <> p.
Proof.
  unfold parent. destruct (String.eqb (strip_trailing_slashes p) EmptyString) eqn:E;
    [discriminate|].
  destruct (last_slash_aux (strip_trailing_slashes p) 0 None) as [[|i]|] eqn:L.
  - intros [= <-] <-. vm_compute in E. discriminate.
  - intros [= <-] Heq.
    destruct (last_slash_bound _ _ _ _ L) as [[=]|Hb].
    pose proof (EscapeFacts.substring0_length (strip_trailing_slashes p) (S i) ltac:(lia)) as Hl.
    pose proof (strip_length p) as Hs. rewrite Heq in Hl. lia.
  - intros [= <-] <-. vm_compute in E. discriminate.
Qed.

Lemma path_exists_delete (fs : FS) (k q : string) :
  q <> k -> path_exists fs q = true -> path_exists (with_files fs (delete k fs.(fs_files))) q = true.
Proof.
  intros Hne. unfold path_exists, with_files. cbn [fs_dirs fs_files].
  rewrite lookup_delete_ne by congruence. tauto.
Qed.

(** After [delete_memory] succeeds, [read_memory] of the same path
    fails with "File not found" and changes nothing. *)
Theorem delete_then_read (dd p : string) (fs fs1 : FS) (files_read : FilesRead)
    (H : execute_delete_memory (Some dd) p fs = (Ok None, fs1)) :
  execute_read_memory (Some dd) p files_read fs1 =
    (Err ("File not found: " +:+ p), files_read, fs1).
Proof.
  unfold execute_delete_memory in H.
  destruct (resolve_memory_path (Some dd) p fs) as [[fp|e] fs2] eqn:R; [|discriminate].
  destruct (path_exists fs2 fp) eqn:Ex; [|discriminate].
  destruct (is_dir fs2 fp) eqn:Ed; [discriminate|].
  injection H as <-.
  destruct (resolve_ok_facts dd p fp fs fs2 R) as (_ & E2 & _ & Efp & _).
  apply orb_false_iff in E2 as [E2 _].
  assert (Hmd : path_join dd "memories" <> fp).
  { intros Heq. assert (Hl := f_equal String.length Heq). rewrite Efp in Hl.
    unfold path_join at 2 in Hl. rewrite E2, !ProcessClaims.str_length_app in Hl.
    cbn in Hl. lia. }
  assert (R' : resolve_memory_path (Some dd) p (with_files fs2 (delete fp (fs_files fs2))) =
               (Ok fp, with_files fs2 (delete fp (fs_files fs2)))).
  { apply (resolve_again dd p fp fs fs2);
      [exact R | intros par Hp; apply path_exists_delete, parent_ne, Hp
      | apply path_exists_delete, Hmd | reflexivity]. }
  unfold execute_read_memory. rewrite R'.
  replace (path_exists (with_files fs2 (delete fp (fs_files fs2))) fp) with false; [reflexivity|].
  unfold path_exists, with_files. cbn [fs_dirs fs_files]. rewrite lookup_delete_eq.
  unfold is_dir in Ed. rewrite Ed. symmetry. apply bool_decide_eq_false. intros [? [=]].
Qed.

End MemoryFacts.

(* ------------------------------------------------------------------ *)
(** ** Witnesses on sample states *)

Module StateWitnesses.
Import Query Memory Reminders Observations StateSamples.

Lemma create_then_read_witness :
  execute_create_memory (Some "/d") "a.md" "hi" mem_fs0 = (Ok None, mem_fs1) /\
  (execute_read_memory (Some "/d") "a.md" ∅ mem_fs1 =
    (Ok (Some (join (String "010" EmptyString) (number_lines 1 (lines "hi")))),
     {[ "a.md" ]} ∪ ∅, mem_fs1) /\
   forall content', execute_create_memory (Some "/d") "a.md" content' mem_fs1 =
    (Err ("File already exists: " +:+ "a.md" +:+ ". Use edit_memory to modify."), mem_fs1)).
Proof.
  assert (H : execute_create_memory (Some "/d") "a.md" "hi" mem_fs0 = (Ok None, mem_fs1))
    by (vm_compute; reflexivity).
  split; [exact H | exact (MemoryFacts.create_then_read "/d" "a.md" "hi" mem_fs0 mem_fs1 ∅ H)].
Defined.

Lemma delete_then_read_witness :
  execute_delete_memory (Some "/d") "a.md" mem_fs1 = (Ok None, mem_fs2) /\
  execute_read_memory (Some "/d") "a.md" ∅ mem_fs2 = (Err ("File not found: " +:+ "a.md"), ∅, mem_fs2).
Proof.
  assert (H : execute_delete_memory (Some "/d") "a.md" mem_fs1 = (Ok None, mem_fs2))
    by (vm_compute; reflexivity).
  split; [exact H | exact (MemoryFacts.delete_then_read "/d" "a.md" mem_fs1 mem_fs2 ∅ H)].
Defined.

Lemma check_reminders_keeps_not_due_witness :
  (check_reminders sched_env0 rem_st0).(reminders_tbl) !! 2 = Some rem_b.
Proof.
  apply (ReminderCheckFacts.check_reminders_keeps_not_due sched_env0 rem_st0 2 rem_b).
  - unfold ids_are_keys. apply (bool_decide_unpack _). vm_compute. reflexivity.
  - reflexivity.
  - right. vm_compute. reflexivity.
Defined.

Lemma check_reminders_completes_one_shot_witness :
  exists t, (check_reminders sched_env0 rem_st0).(reminders_tbl) !! 1 = Some (completed rem_a t).
Proof.
  apply (ReminderCheckFacts.check_reminders_completes_one_shot sched_env0 rem_st0 1 rem_a).
  - unfold ids_are_keys. apply (bool_decide_unpack _). vm_compute. reflexivity.
  - reflexivity.
  - reflexivity.
  - vm_compute. discriminate.
  - reflexivity.
Defined.

End StateWitnesses.
